(** * ICESat-2 data correction notebook: a shallow embedding and its properties

    The development follows [data_correction.ipynb]: the extraction of the
    per-beam ATL06 fields from an HDF5 file (cell 5), the selection of the
    firn-air-content grid points handed to the interpolator (cells 30-31),
    the conversion of heights to ice-shelf thickness (cell 33) and the
    regional time series (cells 37 and 39).

    Numbers are IEEE-754 binary64 values, as Python floats and NumPy float64
    arrays are: Rocq's primitive floats, whose operations are specified by
    [FloatAxioms] against [SpecFloat].  The missing-value marker is [nan];
    primitive floats have a single NaN, so "is missing" is [x = nan]. *)

From Stdlib Require Import Floats ZArith Sorted.
From stdpp Require Import gmap strings pretty list fin_maps.

Set Warnings "-inexact-float,-clear-no-such-hyp".

(** ** Python: exceptions and float arithmetic *)

Module Py.

(** The exceptions the modelled cells can raise. *)
Inductive exn : Type :=
  | KeyError (key : string)
  | ZeroDivisionError
  | OverflowError
  | ValueError
  | IndexError.

(** A Python expression either yields a value or raises. *)
Inductive result (A : Type) : Type :=
  | Ok (a : A)
  | Raise (e : exn).
Global Arguments Ok {A} a.
Global Arguments Raise {A} e.

#[global] Instance result_ret : MRet result := fun A a => Ok a.
#[global] Instance result_bind : MBind result := fun A B f m =>
  match m with
  | Ok a => f a
  | Raise e => Raise e
  end.

(** A [for] loop whose body may raise. *)
Fixpoint for_each {S X} (body : S → X → result S) (xs : list X) (s : S)
    : result S :=
  match xs with
  | [] => Ok s
  | x :: xs' => s' ← body s x; for_each body xs' s'
  end.

(** [a / b] on Python floats ([float_div]): a zero divisor raises, every
    other case is the IEEE quotient (an overflow gives an infinity). *)
Definition float_div (a b : float) : result float :=
  if (b =? 0)%float then Raise ZeroDivisionError else Ok (a / b)%float.

(** [copysign (0.0, v)] for an infinite [v]. *)
Definition signed_zero (v : float) : float :=
  if (v <? 0)%float then (-0)%float else 0%float.

(** [v ** (-1)] on a Python float ([float_pow] with [iw = -1.0], an odd
    integer): NaN is returned as it is, an infinity gives a signed zero, zero
    raises "0.0 cannot be raised to a negative power"; otherwise the sign is
    set aside, libm's [pow (|v|, -1.0)] is taken to be the correctly rounded
    reciprocal, and a result that overflows raises [OverflowError]. *)
Definition float_pow_m1 (iv : float) : result float :=
  if is_nan iv then Ok iv
  else if is_infinity iv then Ok (signed_zero iv)
  else if (iv =? 0)%float then Raise ZeroDivisionError
  else
    let negate_result := (iv <? 0)%float in
    let iv := if negate_result then (- iv)%float else iv in
    if (iv =? 1)%float then Ok (if negate_result then (-1)%float else 1%float)
    else
      let ix := (1 / iv)%float in
      if is_infinity ix then Raise OverflowError
      else Ok (if negate_result then (- ix)%float else ix).

(** A Python [int] used where a float is expected. *)
Definition float_of_Z (z : Z) : float :=
  match z with
  | Z0 => 0%float
  | Zpos _ => of_uint63 (Uint63.of_Z z)
  | Zneg p => (- of_uint63 (Uint63.of_Z (Zpos p)))%float
  end.

(** [d[k]] on a dict. *)
Definition getitem {V} (d : gmap string V) (k : string) : result V :=
  match d !! k with
  | Some v => Ok v
  | None => Raise (KeyError k)
  end.

End Py.
Export Py.

(** ** NumPy: one-dimensional arrays *)

(** The arrays of the notebook are float64 arrays, apart from the integer
    flag [atl06_quality_summary]. *)
Inductive ndarray : Type :=
  | F64 (data : list float)
  | Int (data : list Z).

(** Type promotion of an array that enters float arithmetic. *)
Definition as_f64 (a : ndarray) : list float :=
  match a with
  | F64 d => d
  | Int d => map float_of_Z d
  end.

Module Np.

(** An elementwise binary operation on two 1-D arrays: equal shapes pair up,
    a length-one operand is broadcast and any other pair of shapes raises
    "operands could not be broadcast together". *)
Definition broadcast2 {A B C} (f : A → B → C) (a : list A) (b : list B)
    : result (list C) :=
  if decide (length a = length b) then Ok (zip_with f a b)
  else match a, b with
       | [x], _ => Ok (map (f x) b)
       | _, [y] => Ok (map (fun x => f x y) a)
       | _, _ => Raise ValueError
       end.

(** The elements of [a] added to [res] one after the other. *)
Definition sum_from (res : float) (a : list float) : float :=
  foldl (fun acc x => (acc + x)%float) res a.

(** The unrolled loop of NumPy's pairwise sum: [r[j] += a[i + j]] for
    [j = 0 .. 7], once for each of [blocks] blocks of eight elements.  The
    result is [r] and the elements that were not consumed. *)
Fixpoint add_blocks (blocks : nat) (r a : list float)
    : list float * list float :=
  match blocks with
  | O => (r, a)
  | S blocks' =>
      add_blocks blocks'
        (zip_with (fun x y => (x + y)%float) r (take 8 a)) (drop 8 a)
  end.

(** [pairwise_sum] for [8 <= n <= 128]: eight running sums, started with the
    first eight elements, take the full blocks of eight; they are added as
    [((r0 + r1) + (r2 + r3)) + ((r4 + r5) + (r6 + r7))] and the [n % 8]
    elements that are left are added one after the other. *)
Definition sum_unrolled (a : list float) : float :=
  let '(r, rest) := add_blocks (length a / 8 - 1) (take 8 a) (drop 8 a) in
  match r with
  | [r0; r1; r2; r3; r4; r5; r6; r7] =>
      sum_from (((r0 + r1) + (r2 + r3)) + ((r4 + r5) + (r6 + r7)))%float rest
  | _ => sum_from 0%float a
  end.

(** NumPy's [DOUBLE_pairwise_sum (a, n)]: below eight elements a running sum
    from [0.0]; up to 128 elements the unrolled loop; above, the array is
    split at [n2 = n / 2 - (n / 2) % 8] and the sums of the two parts are
    added.  The recursion halves the array, so [length a] levels are more
    than it uses. *)
Fixpoint pairwise_sum_fuel (fuel : nat) (a : list float) : float :=
  if decide (length a < 8) then sum_from 0%float a
  else if decide (length a ≤ 128) then sum_unrolled a
  else match fuel with
       | O => sum_unrolled a
       | S fuel' =>
           let n2 := length a / 2 - (length a / 2) mod 8 in
           (pairwise_sum_fuel fuel' (take n2 a)
            + pairwise_sum_fuel fuel' (drop n2 a))%float
       end.

Definition pairwise_sum (a : list float) : float :=
  pairwise_sum_fuel (length a) a.

(** [np.sum] of a contiguous 1-D float array: the reduction starts from the
    identity [0.0] and adds the pairwise sum of the elements to it. *)
Definition sum (a : list float) : float :=
  (0 + pairwise_sum a)%float.

(** A sum along an axis that is not the contiguous one, at one position of
    the other axes: the slices are added to the result, which starts at
    [0.0], one after the other. *)
Definition sum_along (a : list float) : float := sum_from 0%float a.

Definition count (n : nat) : float := float_of_Z (Z.of_nat n).

(** [np.mean]: the sum over the number of elements; [0.0 / 0] is [nan]. *)
Definition mean (a : list float) : float :=
  (sum a / count (length a))%float.

(** [np.mean (a, axis)] along an axis that is not the contiguous one, at one
    position of the other axes. *)
Definition mean_along (a : list float) : float :=
  (sum_along a / count (length a))%float.

(** [np.nanmean]: NaNs are replaced by zero in the sum and left out of the
    count. *)
Definition nanmean (a : list float) : float :=
  let valid := filter (fun x => is_nan x = false) a in
  (sum (map (fun x => if is_nan x then 0%float else x) a)
   / count (length valid))%float.

(** [np.diff]: [x[1:] - x[:-1]]. *)
Definition diff (x : list float) : list float :=
  zip_with (fun hi lo => (hi - lo)%float) (drop 1 x) (take (length x - 1) x).

(** [np.cumsum]: running sums, the first being the first element itself. *)
Fixpoint cumsum_from (acc : float) (a : list float) : list float :=
  match a with
  | [] => []
  | v :: a' => let acc' := (acc + v)%float in acc' :: cumsum_from acc' a'
  end.

Definition cumsum (a : list float) : list float :=
  match a with
  | [] => []
  | v :: a' => v :: cumsum_from v a'
  end.

(** [np.where (mask)] on a flattened grid: the indices of the true entries,
    in order. *)
Fixpoint where_from (i : nat) (mask : list bool) : list nat :=
  match mask with
  | [] => []
  | b :: mask' =>
      if b then i :: where_from (S i) mask' else where_from (S i) mask'
  end.

Definition where_ (mask : list bool) : list nat := where_from 0 mask.

(** [a[inds]] for indices produced by [where_]: a position outside the array
    raises. *)
Definition take_inds {A} (a : list A) (inds : list nat) : result (list A) :=
  mapM (fun i => match a !! i with
                 | Some v => Ok v
                 | None => Raise IndexError
                 end) inds.

End Np.

(** ** Cell 5: extraction of the per-beam fields *)

(** A dataset of an HDF5 file: its array and the [_FillValue] attribute when
    it has one. *)
Record h5dataset : Type := H5Dataset {
  ds_data : ndarray;
  ds_FillValue : option float
}.

(** Groups and datasets read from each beam, in the order of the [datasets]
    dict. *)
Definition datasets : list (string * list string) :=
  [ ("land_ice_segments",
      ["h_li"; "latitude"; "longitude"; "atl06_quality_summary"]);
    ("land_ice_segments/geophysical", ["tide_load"; "dac"; "tide_ocean"]);
    ("land_ice_segments/dem", ["geoid_h"]) ].

Definition pairs : list nat := [1; 2; 3].
Definition beams : list string := ["r"].

(** ['/gt%d%s/%s/%s' % (pair, beam, group, dataset)] *)
Definition DS (pair : nat) (beam group dataset : string) : string :=
  "/gt" +:+ pretty pair +:+ beam +:+ "/" +:+ group +:+ "/" +:+ dataset.

(** [a[a == fill_value] = np.NaN] on a float array: the comparison is the
    IEEE one (a NaN equals nothing, the two zeros are equal). *)
Definition normalize (a : list float) (fill_value : float) : list float :=
  map (fun x => if (x =? fill_value)%float then nan else x) a.

(** [temp[dataset][temp[dataset] == fill_value] = np.NaN]: NaN cannot be
    stored in an integer array. *)
Definition fill_missing (a : ndarray) (fill_value : float) : result ndarray :=
  match a with
  | F64 d => Ok (F64 (normalize d fill_value))
  | Int _ => Raise ValueError
  end.

(** The body of the innermost loop: the [try] block, whose [KeyError] (the
    path is not in the file) is caught and passed over. *)
Definition read_dataset (h5f : gmap string h5dataset) (pair : nat)
    (beam group : string) (temp : gmap string ndarray) (dataset : string)
    : result (gmap string ndarray) :=
  match h5f !! DS pair beam group dataset with
  | None => Ok temp
  | Some ds =>
      match ds_FillValue ds with
      | Some fill_value =>
          a ← fill_missing (ds_data ds) fill_value;
          Ok (<[dataset := a]> temp)
      | None => Ok (<[dataset := ds_data ds]> temp)
      end
  end.

(** The two loops over [datasets], from an empty [temp]. *)
Definition read_fields (h5f : gmap string h5dataset) (pair : nat)
    (beam : string) : result (gmap string ndarray) :=
  for_each (fun temp '(group, names) =>
              for_each (read_dataset h5f pair beam group) names temp)
           datasets ∅.

(** [a[idx] = np.NaN] with an index array: integer indices address
    positions (negative ones from the end, out of range raises), a float
    array is no index, and NaN cannot be stored in an integer array. *)
Definition set_nan_at (d : list float) (i : Z) : result (list float) :=
  let n := Z.of_nat (length d) in
  if decide (- n ≤ i < n)%Z
  then Ok (<[Z.to_nat (if decide (i < 0)%Z then i + n else i)%Z := nan]> d)
  else Raise IndexError.

Definition setitem_nan (a idx : ndarray) : result ndarray :=
  match idx with
  | F64 _ => Raise IndexError
  | Int ix =>
      match a with
      | Int _ => Raise ValueError
      | F64 d => d' ← for_each set_nan_at ix d; Ok (F64 d')
      end
  end.

(** [files[::2]] *)
Fixpoint every_other {A} (l : list A) : list A :=
  match l with
  | a :: _ :: l' => a :: every_other l'
  | _ => l
  end.

Section Extraction.
(** [ll2ps (lon, lat, slat=71, slon=0, hemi='s', units='m')] of [is2_utils],
    the polar-stereographic projection, and the contents of the memory that
    [np.empty_like] hands out. *)
Variable ll2ps : list float → list float → result (list float * list float).
Variable uninitialised : nat → float.

Definition empty_like (a : list float) : list float :=
  map uninitialised (seq 0 (length a)).

(** One [(pair, beam)] of one file: [None] when nothing was read and the beam
    is left out of [D6]. *)
Definition read_beam (h5f : gmap string h5dataset) (pair : nat)
    (beam : string) : result (option (gmap string ndarray)) :=
  temp ← read_fields h5f pair beam;
  if decide (0 < size temp) then
    longitude ← getitem temp "longitude";
    latitude ← getitem temp "latitude";
    '(x, y) ← ll2ps (as_f64 longitude) (as_f64 latitude);
    let temp := <["x" := F64 x]> temp in
    let temp := <["y" := F64 y]> temp in
    let temp := <["mask" := F64 (empty_like y)]> temp in
    let temp := <["FAC_interp" := F64 (empty_like y)]> temp in
    h_li ← getitem temp "h_li";
    quality ← getitem temp "atl06_quality_summary";
    h_li ← setitem_nan h_li quality;
    Ok (Some (<["h_li" := h_li]> temp))
  else Ok None.

Definition read_file (h5f : gmap string h5dataset)
    (D6 : list (gmap string ndarray)) : result (list (gmap string ndarray)) :=
  for_each (fun D6 pair =>
    for_each (fun D6 beam =>
      r ← read_beam h5f pair beam;
      Ok (match r with Some temp => D6 ++ [temp] | None => D6 end))
      beams D6)
    pairs D6.

Definition read_files (files : list (gmap string h5dataset))
    : result (list (gmap string ndarray)) :=
  for_each (fun D6 h5f => read_file h5f D6) (every_other files) [].
End Extraction.

(** Whether the file holds dataset [d] of the beam, under one of the groups
    that list it. *)
Definition in_file (h5f : gmap string h5dataset) (pair : nat) (beam d : string)
    : bool :=
  existsb (fun '(group, names) =>
             bool_decide (d ∈ names)
             && bool_decide (is_Some (h5f !! DS pair beam group d))) datasets.

(** The fields that the lines after the loops read from [temp], in the
    order they are read, and the fields they do not read. *)
Definition read_later : list string :=
  ["longitude"; "latitude"; "h_li"; "atl06_quality_summary"].
Definition not_read_later : list string :=
  ["tide_load"; "dac"; "tide_ocean"; "geoid_h"].

(** A file whose beam [gt1r] has no [geoid_h] (and no tide or DAC field),
    and the record cell 5 makes of it for projected coordinates [x], [y]:
    the first height is the fill value, and the integer flags, used as an
    index array, address position 0. *)
Definition beam_without_geoid : gmap string h5dataset :=
  list_to_map
    [ ("/gt1r/land_ice_segments/h_li",
        H5Dataset (F64 [3.4028234663852886e38; 31; 32]%float)
                  (Some 3.4028234663852886e38%float));
      ("/gt1r/land_ice_segments/latitude",
        H5Dataset (F64 [-80; -80.1; -80.2]%float) None);
      ("/gt1r/land_ice_segments/longitude",
        H5Dataset (F64 [150; 150; 150]%float) None);
      ("/gt1r/land_ice_segments/atl06_quality_summary",
        H5Dataset (Int [0; 0; 0]%Z) None) ].

Definition record_without_geoid (uninitialised : nat → float)
    (x y : list float) : gmap string ndarray :=
  list_to_map
    [ ("h_li", F64 [nan; 31; 32]%float);
      ("latitude", F64 [-80; -80.1; -80.2]%float);
      ("longitude", F64 [150; 150; 150]%float);
      ("atl06_quality_summary", Int [0; 0; 0]%Z);
      ("x", F64 x); ("y", F64 y);
      ("mask", F64 (empty_like uninitialised y));
      ("FAC_interp", F64 (empty_like uninitialised y)) ].

(** ** Cells 30 and 31: the firn-air-content grid and its interpolation *)

(** The bounds of a longitude-latitude box, all four exclusive. *)
Record box : Type := Box {
  lon_min : float; lon_max : float; lat_min : float; lat_max : float
}.

Definition byrd_interp_box : box := Box 147 163 (-82) (-78).
Definition byrd_box : box := Box 148 162 (-81) (-79).
Definition larsen_c_box : box := Box (-64) (-62) (-68) (-66).

Definition in_box (b : box) (lon lat : float) : bool :=
  (lon_min b <? lon)%float && (lon <? lon_max b)%float
  && (lat_min b <? lat)%float && (lat <? lat_max b)%float.

(** [inds = np.where ((lon > ..) & (lon < ..) & (lat > ..) & (lat < ..))] on
    the flattened (row-major) coordinate grids. *)
Definition inds (b : box) (lon lat : list float) : result (list nat) :=
  mask ← Np.broadcast2 (in_box b) lon lat;
  Ok (Np.where_ mask).

(** The model grid of cell 27, flattened: coordinates, their projection and
    the 2016 mean of the firn air content. *)
Record fac_grid : Type := FacGrid {
  lon_fac : list float;
  lat_fac : list float;
  x_fac : list float;
  y_fac : list float;
  meanFirnAir_16 : list float
}.

(** Cell 30: [(xy, mean_fac_byrd)], the source points and source values of
    the interpolation. *)
Definition interp_sources (g : fac_grid)
    : result (list (float * float) * list float) :=
  inds ← inds byrd_interp_box (lon_fac g) (lat_fac g);
  mean_fac_byrd ← Np.take_inds (meanFirnAir_16 g) inds;
  xs ← Np.take_inds (x_fac g) inds;
  ys ← Np.take_inds (y_fac g) inds;
  Ok (zip xs ys, mean_fac_byrd).

(** [xy_data] of cell 31: the second column is assigned into rows made for
    the first, so its length has to agree or be one. *)
Definition xy_data (Di : gmap string ndarray)
    : result (list (float * float)) :=
  x ← getitem Di "x";
  y ← getitem Di "y";
  let x := as_f64 x in
  let y := as_f64 y in
  if decide (length y = length x) then Ok (zip x y)
  else match y with
       | [y0] => Ok (map (fun xi => (xi, y0)) x)
       | _ => Raise ValueError
       end.

Section Interpolation.
(** [scipy.interpolate.griddata (points, values, xi)], called with its
    defaults. *)
Variable griddata :
  list (float * float) → list float → list (float * float)
  → result (list float).

(** The body of the loop of cell 31. *)
Definition FAC_interp (g : fac_grid) (Di : gmap string ndarray)
    : result (gmap string ndarray) :=
  '(xy, mean_fac_byrd) ← interp_sources g;
  xy_data ← xy_data Di;
  v ← griddata xy mean_fac_byrd xy_data;
  Ok (<["FAC_interp" := F64 v]> Di).
End Interpolation.

(** A grid of three points, two of them in the Byrd box, one of these
    without a value. *)
Definition grid_with_gap : fac_grid :=
  FacGrid [150; 151; 170]%float [-80; -80; -80]%float
          [1000; 2000; 3000]%float [-4000; -5000; -6000]%float
          [12.5; nan; 7]%float.

(** ** Cell 33: height above mean sea level and thickness *)

Record config : Type := Config {
  MDT_corr : float;
  rho_ice : float;
  rho_ocean : float
}.

(** [MDT_corr = -1.4; rho_ice = 917.; rho_ocean = 1028.] *)
Definition notebook_config : config := Config (-1.4) 917 1028.

(** Equal densities, so small that their reciprocal overflows. *)
Definition thin_air : config := Config (-1.4) 0x1p-1074 0x1p-1074.

(** [h_MSL = Di['h_li'] - MDT_corr - Di['geoid_h']] *)
Definition h_MSL (c : config) (Di : gmap string ndarray)
    : result (list float) :=
  h_li ← getitem Di "h_li";
  let t := map (fun h => (h - MDT_corr c)%float) (as_f64 h_li) in
  geoid_h ← getitem Di "geoid_h";
  Np.broadcast2 (fun a b => (a - b)%float) t (as_f64 geoid_h).

(** [(1/rho_ice - 1/rho_ocean)**(-1)], on Python floats. *)
Definition buoyancy_factor (c : config) : result float :=
  a ← float_div 1 (rho_ice c);
  b ← float_div 1 (rho_ocean c);
  float_pow_m1 (a - b).

(** [thickness = ((1/rho_ice - 1/rho_ocean)**(-1)) * ((h_MSL - FAC)/rho_ice)]
    for given arrays [h_MSL] and [FAC]: the factor is evaluated first, the
    array arithmetic is NumPy's and does not raise on a zero divisor. *)
Definition thickness_of (c : config) (h_MSL FAC : list float)
    : result (list float) :=
  k ← buoyancy_factor c;
  d ← Np.broadcast2 (fun a b => (a - b)%float) h_MSL FAC;
  Ok (map (fun v => (k * (v / rho_ice c))%float) d).

(** One sample of the two lines, for a factor [k] that evaluated. *)
Definition thickness_sample (c : config) (k h_li geoid_h fac : float)
    : float :=
  (k * ((h_li - MDT_corr c - geoid_h - fac) / rho_ice c))%float.

(** The body of the loop of cell 33. *)
Definition thickness (c : config) (Di : gmap string ndarray)
    : result (list float) :=
  h_MSL ← h_MSL c Di;
  k ← buoyancy_factor c;
  FAC ← getitem Di "FAC_interp";
  d ← Np.broadcast2 (fun a b => (a - b)%float) h_MSL (as_f64 FAC);
  Ok (map (fun v => (k * (v / rho_ice c))%float) d).

(** A record of three samples: the second lacks its height, the third its
    geoid value. *)
Definition sample_record : gmap string ndarray :=
  list_to_map
    [ ("h_li", F64 [98.5; nan; 50]%float);
      ("geoid_h", F64 [-0.5; -30; nan]%float);
      ("FAC_interp", F64 [5; 1; 1]%float);
      ("tide_ocean", F64 [0.25; 0.25; 0.25]%float) ].

(** The fields of a record that hold tide and atmosphere corrections. *)
Definition tide_fields : list string := ["tide_ocean"; "tide_load"; "dac"].

(** [|a - b| <= tol] *)
Definition close_to (tol a b : float) : bool := (abs (a - b) <=? tol)%float.

(** ** Cells 37 and 39: regional means and cumulative height change *)

(** [for i in range (0, len (time)): out[i] = f (field[i,:,:][inds])], the
    field given as one flattened grid per time step. *)
Definition region_series (f : list float → float) (field : list (list float))
    (inds : list nat) (time : list float) : result (list float) :=
  mapM (fun i =>
          match field !! i with
          | None => Raise IndexError
          | Some grid => v ← Np.take_inds grid inds; Ok (f v)
          end)
       (seq 0 (length time)).

(** [mean_fac] over the Byrd box (cell 37): [np.mean]. *)
Definition mean_fac_byrd_series (lon lat : list float)
    (FirnAir : list (list float)) (time_fac : list float)
    : result (list float) :=
  inds ← inds byrd_box lon lat;
  region_series Np.mean FirnAir inds time_fac.

(** [mean_fac] over the Larsen C box (cell 39): [np.nanmean]. *)
Definition mean_fac_larsen_series (lon lat : list float)
    (FirnAir : list (list float)) (time_fac : list float)
    : result (list float) :=
  inds ← inds larsen_c_box lon lat;
  region_series Np.nanmean FirnAir inds time_fac.

(** [rho_snow = 450.] and
    [smb_to_surface_height = (rho_ice/rho_snow) - (rho_ocean-rho_ice)/rho_ice] *)
Definition rho_snow : float := 450.

Definition smb_to_surface_height (c : config) : result float :=
  a ← float_div (rho_ice c) rho_snow;
  b ← float_div (rho_ocean c - rho_ice c) (rho_ice c);
  Ok (a - b)%float.

(** The integrand of [cumtrapz]: [diff (x) * (y[1:] + y[:-1]) / 2.0]. *)
Definition panels (y x : list float) : list float :=
  zip_with (fun d s => (d * s / 2)%float) (Np.diff x)
    (zip_with (fun hi lo => (hi + lo)%float) (drop 1 y) (take (length y - 1) y)).

(** [scipy.integrate.cumtrapz (y, x=x)] for 1-D [y] and [x]: the running sum
    of the integrand, after the check that [diff (x)] has one element less
    than [y]. *)
Definition cumtrapz (y x : list float) : result (list float) :=
  if decide (Z.of_nat (length (Np.diff x)) = Z.of_nat (length y) - 1)%Z
  then Ok (Np.cumsum (panels y x))
  else Raise ValueError.

(** [mean_smb = mean_smb - np.mean (mean_smb)]
    [mean_smb = cumtrapz (mean_smb, x=time_smb)] *)
Definition cumulative_anomaly (center : list float → float)
    (mean_smb time_smb : list float) : result (list float) :=
  let m := center mean_smb in
  cumtrapz (map (fun v => (v - m)%float) mean_smb) time_smb.

(** [mean_smb] of cell 37 (Byrd; the anomaly is taken with [np.mean]) and of
    cell 39 (Larsen C; with [np.nanmean]).  Both average the grid with
    [np.mean]. *)
Definition mean_smb (b : box) (center : list float → float) (c : config)
    (lon_smb lat_smb : list float) (SMB : list (list float))
    (time_smb : list float) : result (list float) :=
  k ← smb_to_surface_height c;
  inds ← inds b lon_smb lat_smb;
  series ← region_series (fun v => (k * Np.mean v)%float) SMB inds time_smb;
  cumulative_anomaly center series time_smb.

Definition mean_smb_byrd := mean_smb byrd_box Np.mean.
Definition mean_smb_larsen := mean_smb larsen_c_box Np.nanmean.

(** The trapezoidal rule as the specification words it, for comparison with
    [cumtrapz]: one panel between two neighbouring sample points, and the
    area under [y] from [x[0]] to [x[k+1]]. *)
Definition panel (y x : list float) (j : nat) : float :=
  ((nth (S j) x 0 - nth j x 0) * (nth (S j) y 0 + nth j y 0) / 2)%float.

Fixpoint trapezoid_area (y x : list float) (k : nat) : float :=
  match k with
  | O => panel y x 0
  | S k' => (trapezoid_area y x k' + panel y x k)%float
  end.

(** A value that is [+0] or [-0]. *)
Definition zero_valued (x : float) : Prop := ∃ s, Prim2SF x = S754_zero s.

(** ** Further lines of the notebook *)

(** The position an integer index [i] addresses in an array of [n]
    elements: negative indices count from the end. *)
Definition wrap_index (n : nat) (i : Z) : nat :=
  Z.to_nat (if decide (i < 0)%Z then i + Z.of_nat n else i)%Z.

(** Cell 27: [time_16_inds = np.where ((time_fac > 2015.99) & (time_fac < 2017))] *)
Definition time_16_inds (time_fac : list float) : list nat :=
  Np.where_ (map (fun t => (2015.99 <? t)%float && (t <? 2017)%float) time_fac).

(** One grid cell of a stack of slices.  [FirnAir] is a three-dimensional
    array: every slice has the same number of cells. *)
Definition cell_series (slices : list (list float)) (j : nat) : list float :=
  map (fun slice => nth j slice nan) slices.

(** Cell 27: [FirnAir_16 = FirnAir[time_16_inds,:,:]] and
    [meanFirnAir_16 = np.squeeze (np.mean (FirnAir_16, 1))], the mean over
    the selected time steps, cell by cell, for a grid of [ncell] cells. *)
Definition meanFirnAir_16_of (ncell : nat) (FirnAir : list (list float))
    (time_fac : list float) : result (list float) :=
  FirnAir_16 ← Np.take_inds FirnAir (time_16_inds time_fac);
  Ok (map (fun j => Np.mean_along (cell_series FirnAir_16 j))
          (seq 0 ncell)).

(** Cells 37 and 39: [mean_fac - mean_fac[0]], the series that is plotted as
    the change in firn air content. *)
Definition mean_fac_change (mean_fac : list float) : result (list float) :=
  match mean_fac !! 0 with
  | None => Raise IndexError
  | Some first => Ok (map (fun v => (v - first)%float) mean_fac)
  end.

(** A file whose beam [gt1r] has every dataset of cell 5. *)
Definition complete_beam : gmap string h5dataset :=
  list_to_map
    [ ("/gt1r/land_ice_segments/h_li",
        H5Dataset (F64 [30; 3.4028234663852886e38; 32]%float)
                  (Some 3.4028234663852886e38%float));
      ("/gt1r/land_ice_segments/latitude",
        H5Dataset (F64 [-80; -80.1; -80.2]%float) None);
      ("/gt1r/land_ice_segments/longitude",
        H5Dataset (F64 [150; 150; 150]%float) None);
      ("/gt1r/land_ice_segments/atl06_quality_summary",
        H5Dataset (Int [0; 1; 1]%Z) None);
      ("/gt1r/land_ice_segments/geophysical/tide_load",
        H5Dataset (F64 [0.01; 0.01; 0.01]%float) None);
      ("/gt1r/land_ice_segments/geophysical/dac",
        H5Dataset (F64 [0.1; 0.1; 0.1]%float) None);
      ("/gt1r/land_ice_segments/geophysical/tide_ocean",
        H5Dataset (F64 [0.5; 0.5; 0.5]%float) None);
      ("/gt1r/land_ice_segments/dem/geoid_h",
        H5Dataset (F64 [-55; -55; -55]%float) None) ].

(** The same file with a fill value declared on its integer dataset. *)
Definition beam_with_integer_fill : gmap string h5dataset :=
  <["/gt1r/land_ice_segments/atl06_quality_summary"
      := H5Dataset (Int [0; 1; 1]%Z) (Some 127%float)]> complete_beam.

(** The value of a run that does not raise, and the record a run appends. *)
Definition returned {A} `{Inhabited A} (t : result A) : A :=
  match t with Ok a => a | Raise _ => inhabitant end.

Definition appended {A} `{Inhabited A} (t : result (option A)) : A :=
  match t with Ok (Some a) => a | _ => inhabitant end.

(** * Properties *)

(** ** Facts about binary64 arithmetic *)

Section FloatFacts.
Implicit Types x y : float.

Lemma nan_spec x : Prim2SF x = S754_nan ↔ x = nan.
Proof.
  split; [intros H | intros ->; reflexivity].
  apply Prim2SF_inj. rewrite H. reflexivity.
Qed.

Lemma sub_nan_l y : (nan - y)%float = nan.
Proof. apply Prim2SF_inj. rewrite FloatAxioms.sub_spec. reflexivity. Qed.

Lemma sub_nan_r x : (x - nan)%float = nan.
Proof.
  apply Prim2SF_inj. rewrite FloatAxioms.sub_spec.
  change (Prim2SF nan) with S754_nan. by destruct (Prim2SF x).
Qed.

Lemma div_nan_l y : (nan / y)%float = nan.
Proof. apply Prim2SF_inj. rewrite FloatAxioms.div_spec. reflexivity. Qed.

Lemma mul_nan_r x : (x * nan)%float = nan.
Proof.
  apply Prim2SF_inj. rewrite FloatAxioms.mul_spec.
  change (Prim2SF nan) with S754_nan. by destruct (Prim2SF x).
Qed.

Lemma eqb_zero_spec x : (x =? 0)%float = true ↔ zero_valued x.
Proof.
  rewrite FloatAxioms.eqb_spec. change (Prim2SF 0) with (S754_zero false).
  unfold zero_valued, SFeqb, SFcompare.
  destruct (Prim2SF x) as [s|[]| |[] m e]; split;
    try discriminate; try (intros [? ?]; discriminate); eauto.
Qed.

(** IEEE equality is equality, except between the two zeros. *)
Lemma eqb_true_eq x y :
  (x =? y)%float = true → (x =? 0)%float = false → x = y.
Proof.
  intros Heq Hnz. apply Prim2SF_inj.
  assert (Hz : ¬ zero_valued x).
  { rewrite <- eqb_zero_spec, Hnz. discriminate. }
  rewrite FloatAxioms.eqb_spec in Heq. unfold SFeqb, SFcompare in Heq.
  destruct (Prim2SF x) as [s1|s1| |s1 m1 e1] eqn:Hx.
  - destruct Hz. by exists s1.
  - destruct (Prim2SF y) as [s2|s2| |s2 m2 e2], s1; try destruct s2; done.
  - done.
  - destruct (Prim2SF y) as [s2|s2| |s2 m2 e2];
      try (destruct s1; try destruct s2; done).
    assert (e1 = e2 ∧ m1 = m2) as [-> ->]; [|by destruct s1, s2].
    destruct s1, s2; try done;
      (destruct (e1 ?= e2)%Z eqn:He; try done);
      apply Z.compare_eq in He; (split; [done|]);
      (destruct (Pos.compare_cont Eq m1 m2) eqn:Hm; try done);
      by apply Pos.compare_eq in Hm.
Qed.

(** A finite value is a zero or a finite nonzero number. *)
Lemma is_finite_spec x :
  is_finite x = true ↔
  zero_valued x ∨ (∃ s m e, Prim2SF x = S754_finite s m e).
Proof.
  unfold is_finite, is_nan, is_infinity, zero_valued.
  rewrite !FloatAxioms.eqb_spec, abs_spec.
  change (Prim2SF infinity) with (S754_infinity false).
  unfold SFeqb, SFcompare, SFabs.
  destruct (Prim2SF x) as [s|s| |s m e].
  - split; eauto.
  - split; [by destruct s|]. intros [[? ?]|(? & ? & ? & ?)]; discriminate.
  - split; [done|]. intros [[? ?]|(? & ? & ? & ?)]; discriminate.
  - split; [eauto 6|]. intros _.
    rewrite Z.compare_refl, Pos.compare_cont_refl. by destruct s.
Qed.

(** Round to nearest: a finite value minus itself is [+0]. *)
Lemma sub_diag_finite x : is_finite x = true → (x - x)%float = 0%float.
Proof.
  rewrite is_finite_spec. intros H. apply Prim2SF_inj.
  rewrite FloatAxioms.sub_spec. change (Prim2SF 0) with (S754_zero false).
  destruct H as [[s ->]|(s & m & e & ->)].
  - by destruct s.
  - unfold SF64sub, SFsub. rewrite Z.sub_diag. reflexivity.
Qed.

(** Zeros stay zeros in a trapezoid panel and in a running sum. *)
Lemma mul_zero_r x y :
  is_finite x = true → zero_valued y → zero_valued (x * y).
Proof.
  rewrite is_finite_spec. unfold zero_valued. rewrite FloatAxioms.mul_spec.
  intros [[s ->]|(s & m & e & ->)] [s' ->]; simpl; eauto.
Qed.

Lemma div_zero_two x : zero_valued x → zero_valued (x / 2).
Proof.
  unfold zero_valued. rewrite FloatAxioms.div_spec.
  intros [s ->]. vm_compute. destruct s; eauto.
Qed.

Lemma add_zero_zero x y : zero_valued x → zero_valued y → zero_valued (x + y).
Proof.
  unfold zero_valued. rewrite FloatAxioms.add_spec.
  intros [s ->] [s' ->]. destruct s, s'; simpl; eauto.
Qed.

End FloatFacts.

(** ** Python and NumPy helpers *)

Lemma broadcast2_same_length {A B C} (f : A → B → C) (a : list A) (b : list B) :
  length a = length b → Np.broadcast2 f a b = Ok (zip_with f a b).
Proof. intros H. unfold Np.broadcast2. by rewrite decide_True. Qed.

Lemma getitem_Some {V} (d : gmap string V) k v :
  d !! k = Some v → getitem d k = Ok v.
Proof. intros H. unfold getitem. by rewrite H. Qed.

Lemma for_each_unchanged {S X} (body : S → X → result S) (xs : list X) (s : S) :
  (∀ x, x ∈ xs → body s x = Ok s) → for_each body xs s = Ok s.
Proof.
  induction xs as [|x xs IH]; intros H; simpl; [done|].
  rewrite H by left. simpl. apply IH. intros y Hy. apply H. by right.
Qed.

Lemma where_from_elem (mask : list bool) : ∀ k i,
  i ∈ Np.where_from k mask ↔ k ≤ i ∧ mask !! (i - k) = Some true.
Proof.
  induction mask as [|b mask IH]; intros k i; simpl.
  - split; [intros H; by apply elem_of_nil in H|intros [_ H]; done].
  - assert (Hrec : i ∈ Np.where_from (S k) mask ↔
                   k ≤ i ∧ i ≠ k ∧ mask !! (i - S k) = Some true).
    { rewrite IH. split; [intros [? ?]|intros (? & ? & ?)];
        repeat split; done || lia. }
    assert (Hcons : ∀ j, k ≤ j → j ≠ k →
              (b :: mask) !! (j - k) = mask !! (j - S k)).
    { intros j ? ?. replace (j - k) with (S (j - S k)) by lia. done. }
    destruct b.
    + rewrite elem_of_cons, Hrec. split.
      * intros [->|(? & ? & ?)]; [by rewrite Nat.sub_diag|].
        split; [done|]. by rewrite Hcons.
      * intros [? H]. destruct (decide (i = k)) as [->|]; [by left|].
        right. by rewrite <- Hcons.
    + rewrite Hrec. split.
      * intros (? & ? & ?). split; [done|]. by rewrite Hcons.
      * intros [? H]. destruct (decide (i = k)) as [->|].
        -- by rewrite Nat.sub_diag in H.
        -- by rewrite <- Hcons.
Qed.

Lemma where_elem (mask : list bool) i :
  i ∈ Np.where_ mask ↔ mask !! i = Some true.
Proof.
  unfold Np.where_. rewrite where_from_elem, Nat.sub_0_r.
  split; [by intros [_ ?]|]. split; [lia|done].
Qed.

Lemma take_inds_Ok {A} (a : list A) (inds : list nat) :
  (∀ i, i ∈ inds → i < length a) →
  ∃ l, Np.take_inds a inds = Ok l ∧ length l = length inds
     ∧ ∀ j i, inds !! j = Some i → l !! j = a !! i.
Proof.
  unfold Np.take_inds. induction inds as [|i inds IH]; intros Hin; simpl.
  - exists []. split; [done|]. split; [done|]. intros j i. by rewrite lookup_nil.
  - destruct IH as (l & Hl & Hlen & Hlook); [intros; apply Hin; by right|].
    destruct (lookup_lt_is_Some_2 a i) as [v Hv]; [apply Hin; by left|].
    exists (v :: l). rewrite Hv. simpl. rewrite Hl. simpl.
    split; [done|]. split; [by rewrite Hlen|].
    intros [|j] i'; simpl; [by intros [= <-]|apply Hlook].
Qed.

(** ** Cell 33: thickness and height above mean sea level *)

(** C1, as the specification states it, fails: with [rho_ice = 917],
    [rho_ocean = 1028], [h_MSL = 100] and a firn air content of [5] the
    thickness line gives a value above 879, which is not within 0.05 of
    87.9. *)
Lemma thickness_example_is_not_87_9 :
  ∃ t, thickness_of notebook_config [100%float] [5%float] = Ok [t]
       ∧ close_to 0.05 t 87.9 = false ∧ (879 <? t)%float = true.
Proof. eexists. split; [vm_compute; reflexivity|]. split; reflexivity. Qed.

(** C1 (amended): for [rho_ice = 917], [rho_ocean = 1028], [h_MSL = 100]
    and a firn air content of [5] the thickness
    [(1/rho_ice - 1/rho_ocean)^(-1) * (h_MSL - firn_air)/rho_ice] evaluates
    to approximately 879.8 m (95 * 1028 / 111). *)
Theorem thickness_example :
  ∃ t, thickness_of notebook_config [100%float] [5%float] = Ok [t]
       ∧ close_to 0.05 t 879.8 = true.
Proof. eexists. split; [vm_compute; reflexivity|reflexivity]. Qed.

Lemma h_MSL_value (c : config) (Di : gmap string ndarray) (h g : list float) :
  Di !! "h_li" = Some (F64 h) →
  Di !! "geoid_h" = Some (F64 g) →
  length g = length h →
  h_MSL c Di = Ok (zip_with (fun a b => (a - b)%float)
                     (map (fun x => (x - MDT_corr c)%float) h) g).
Proof.
  intros H1 H2 Hlen. unfold h_MSL.
  rewrite (getitem_Some _ _ _ H1), (getitem_Some _ _ _ H2). simpl.
  apply broadcast2_same_length. by rewrite length_map.
Qed.

(** C2: for every sample of a beam record the height above mean sea level
    is [h_li - MDT_corr - geoid_h], with the one scalar [MDT_corr] of the
    configuration and the sample's own geoid height; the tide and
    atmosphere fields of the record do not enter: whatever they hold, the
    result is the same. *)
Theorem h_MSL_per_sample (c : config) (Di : gmap string ndarray)
    (h g : list float) :
  Di !! "h_li" = Some (F64 h) →
  Di !! "geoid_h" = Some (F64 g) →
  length g = length h →
  ∃ m, h_MSL c Di = Ok m ∧ length m = length h
     ∧ (∀ i hi gi, h !! i = Some hi → g !! i = Some gi →
          m !! i = Some (hi - MDT_corr c - gi)%float)
     ∧ (∀ tide v, tide ∈ tide_fields → h_MSL c (<[tide := v]> Di) = Ok m).
Proof.
  intros Hh Hg Hlen. eexists. split; [by apply h_MSL_value|].
  split; [|split].
  - rewrite length_zip_with, length_map. lia.
  - intros i hi gi Hi Hgi.
    by rewrite lookup_zip_with, list_lookup_fmap, Hi, Hgi.
  - intros tide v Htide. unfold tide_fields in Htide.
    apply h_MSL_value; [| |done];
      (rewrite lookup_insert_ne; [done|]);
      repeat (apply elem_of_cons in Htide as [->|Htide]; [done|]);
      by apply elem_of_nil in Htide.
Qed.

Lemma h_MSL_per_sample_witness :
  ∃ m, h_MSL notebook_config sample_record = Ok m ∧ length m = 3
     ∧ m !! 0 = Some (98.5 - (-1.4) - (-0.5))%float
     ∧ h_MSL notebook_config
         (<["tide_ocean" := F64 [7; 7; 7]%float]> sample_record) = Ok m.
Proof.
  destruct (h_MSL_per_sample notebook_config sample_record
              [98.5; nan; 50]%float [-0.5; -30; nan]%float
              eq_refl eq_refl eq_refl) as (m & Hm & Hl & Hi & Ht).
  exists m. split; [exact Hm|]. split; [exact Hl|].
  split; [exact (Hi 0 _ _ eq_refl eq_refl)|].
  apply Ht. by left.
Defined.

Lemma thickness_sample_missing (c : config) (k hi gi fi : float) :
  hi = nan ∨ MDT_corr c = nan ∨ gi = nan ∨ fi = nan →
  thickness_sample c k hi gi fi = nan.
Proof.
  unfold thickness_sample.
  intros [-> | [-> | [-> | ->] ] ];
    rewrite ?sub_nan_l, ?sub_nan_r, ?sub_nan_l, ?sub_nan_l, ?div_nan_l,
      ?mul_nan_r;
    reflexivity.
Qed.

(** C3: when the factor of the configuration evaluates, the thickness of a
    beam record is computed sample by sample from that sample's inputs, and
    a sample whose height, geoid height or interpolated firn air content is
    missing, or any sample when the MDT correction is missing, has a
    missing thickness; the other samples keep their values and the record
    as a whole does not fail. *)
Theorem thickness_missing_propagates (c : config) (Di : gmap string ndarray)
    (h g f : list float) (k : float) :
  Di !! "h_li" = Some (F64 h) →
  Di !! "geoid_h" = Some (F64 g) →
  Di !! "FAC_interp" = Some (F64 f) →
  length g = length h → length f = length h →
  buoyancy_factor c = Ok k →
  ∃ t, thickness c Di = Ok t ∧ length t = length h
     ∧ ∀ i hi gi fi, h !! i = Some hi → g !! i = Some gi → f !! i = Some fi →
         t !! i = Some (thickness_sample c k hi gi fi)
         ∧ (hi = nan ∨ MDT_corr c = nan ∨ gi = nan ∨ fi = nan →
            t !! i = Some nan).
Proof.
  intros Hh Hg Hf Hlg Hlf Hk.
  set (m := zip_with (fun a b => (a - b)%float)
              (map (fun x => (x - MDT_corr c)%float) h) g).
  assert (Hlm : length m = length h).
  { unfold m. rewrite length_zip_with, length_map. lia. }
  exists (map (fun v => (k * (v / rho_ice c))%float)
            (zip_with (fun a b => (a - b)%float) m f)).
  split.
  { unfold thickness. rewrite (h_MSL_value c Di h g Hh Hg Hlg). simpl.
    rewrite Hk. simpl. rewrite (getitem_Some _ _ _ Hf). simpl.
    fold m. rewrite broadcast2_same_length by (simpl; lia). reflexivity. }
  split; [rewrite length_map, length_zip_with; lia|].
  intros i hi gi fi Hi Hgi Hfi.
  assert (Hti : map (fun v => (k * (v / rho_ice c))%float)
                  (zip_with (fun a b => (a - b)%float) m f) !! i
                = Some (thickness_sample c k hi gi fi)).
  { unfold m.
    rewrite list_lookup_fmap, !lookup_zip_with, list_lookup_fmap, Hi, Hgi, Hfi.
    reflexivity. }
  split; [exact Hti|].
  intros Hmiss. rewrite Hti. f_equal. by apply thickness_sample_missing.
Qed.

Lemma thickness_missing_propagates_witness :
  ∃ t k, thickness notebook_config sample_record = Ok t ∧ length t = 3
     ∧ t !! 0 = Some (thickness_sample notebook_config k 98.5 (-0.5) 5)
     ∧ t !! 1 = Some nan ∧ t !! 2 = Some nan.
Proof.
  destruct (thickness_missing_propagates notebook_config sample_record
              [98.5; nan; 50]%float [-0.5; -30; nan]%float [5; 1; 1]%float
              8492.5765765765736%float
              eq_refl eq_refl eq_refl eq_refl eq_refl eq_refl)
    as (t & Ht & Hl & Hi).
  exists t, 8492.5765765765736%float. split; [exact Ht|]. split; [exact Hl|].
  split; [exact (proj1 (Hi 0 _ _ _ eq_refl eq_refl eq_refl))|].
  split.
  - apply (proj2 (Hi 1 _ _ _ eq_refl eq_refl eq_refl)). by left.
  - apply (proj2 (Hi 2 _ _ _ eq_refl eq_refl eq_refl)). right. right. by left.
Defined.

(** C4, as the specification states it, fails: for equal densities so small
    that their reciprocal overflows, [1/rho_ice - 1/rho_ocean] is
    [inf - inf], the factor is NaN and the thickness is NaN, without any
    error. *)
Lemma equal_densities_without_error :
  (rho_ice thin_air =? rho_ocean thin_air)%float = true
  ∧ buoyancy_factor thin_air = Ok nan
  ∧ thickness_of thin_air [100%float] [5%float] = Ok [nan].
Proof. repeat split; vm_compute; reflexivity. Qed.

(** C4 (amended): when [rho_ice] equals [rho_ocean] and is zero or has a
    finite reciprocal, evaluating [(1/rho_ice - 1/rho_ocean)**(-1)] raises
    Python's [ZeroDivisionError], and so does the thickness computation: no
    infinity is produced.  The error comes from the float operations; the
    cell has no guard of its own. *)
Theorem equal_densities_raise (c : config) :
  (rho_ice c =? rho_ocean c)%float = true →
  (rho_ice c =? 0)%float || is_finite (1 / rho_ice c) = true →
  buoyancy_factor c = Raise ZeroDivisionError
  ∧ (∀ h_MSL FAC, thickness_of c h_MSL FAC = Raise ZeroDivisionError)
  ∧ (∀ Di m, h_MSL c Di = Ok m → thickness c Di = Raise ZeroDivisionError).
Proof.
  intros Heq Hrec.
  assert (Hk : buoyancy_factor c = Raise ZeroDivisionError).
  { unfold buoyancy_factor, float_div.
    destruct (rho_ice c =? 0)%float eqn:Hz; [reflexivity|].
    simpl in Hrec.
    rewrite <- (eqb_true_eq _ _ Heq Hz), Hz. simpl.
    rewrite (sub_diag_finite _ Hrec). reflexivity. }
  split; [exact Hk|]. split.
  - intros. unfold thickness_of. by rewrite Hk.
  - intros Di m Hm. unfold thickness. rewrite Hm. simpl. by rewrite Hk.
Qed.

Lemma equal_densities_raise_witness :
  (rho_ice (Config (-1.4) 917 917) =? rho_ocean (Config (-1.4) 917 917))%float
  = true
  ∧ buoyancy_factor (Config (-1.4) 917 917) = Raise ZeroDivisionError
  ∧ thickness_of (Config (-1.4) 917 917) [100%float] [5%float]
    = Raise ZeroDivisionError.
Proof.
  split; [reflexivity|].
  destruct (equal_densities_raise (Config (-1.4) 917 917) eq_refl eq_refl)
    as (Hk & Ht & _).
  split; [exact Hk|apply Ht].
Defined.

(** ** Cell 5: what the extraction does with an absent dataset *)

Section ReadFields.
Variable h5f : gmap string h5dataset.
Variables (pair : nat) (beam : string).

Lemma read_dataset_is_Some group temp d temp' k :
  read_dataset h5f pair beam group temp d = Ok temp' →
  is_Some (temp' !! k) ↔
  is_Some (temp !! k) ∨ (k = d ∧ is_Some (h5f !! DS pair beam group d)).
Proof.
  unfold read_dataset. destruct (h5f !! DS pair beam group d) as [ds|] eqn:Hds.
  - assert (∀ a, is_Some (<[d:=a]> temp !! k) ↔
                 is_Some (temp !! k) ∨ k = d ∧ is_Some (Some ds)).
    { intros a. rewrite lookup_insert. case_decide; subst.
      - split; [intros _; right; eauto|eauto].
      - split; [eauto|]. intros [|[]]; done. }
    destruct (ds_FillValue ds).
    + destruct (fill_missing _ _); simpl; [|done]. by intros [= <-].
    + by intros [= <-].
  - intros [= <-]. split; [eauto|]. intros [|[_ []]]; done.
Qed.

Lemma read_dataset_raises group temp d e :
  read_dataset h5f pair beam group temp d = Raise e → e = ValueError.
Proof.
  unfold read_dataset. destruct (h5f !! _) as [ds|]; [|done].
  destruct (ds_FillValue ds); [|done].
  destruct (ds_data ds); simpl; [done|]. by intros [= <-].
Qed.

Lemma read_group_is_Some group names : ∀ temp temp' k,
  for_each (read_dataset h5f pair beam group) names temp = Ok temp' →
  is_Some (temp' !! k) ↔
  is_Some (temp !! k) ∨ (k ∈ names ∧ is_Some (h5f !! DS pair beam group k)).
Proof.
  induction names as [|d names IH]; intros temp temp' k; simpl.
  - intros [= <-]. split; [eauto|].
    intros [|[H _]]; [done|]. by apply elem_of_nil in H.
  - destruct (read_dataset h5f pair beam group temp d) as [temp1|] eqn:Hd;
      [|done].
    simpl. intros H.
    rewrite (IH _ _ _ H), (read_dataset_is_Some _ _ _ _ _ Hd), elem_of_cons.
    split.
    + intros [[|[-> ?]]|[? ?]]; eauto.
    + intros [|[[->|] ?]]; eauto.
Qed.

Lemma read_group_raises group names : ∀ temp e,
  for_each (read_dataset h5f pair beam group) names temp = Raise e →
  e = ValueError.
Proof.
  induction names as [|d names IH]; intros temp e; simpl; [done|].
  destruct (read_dataset h5f pair beam group temp d) eqn:Hd; simpl.
  - apply IH.
  - intros [= <-]. by eapply read_dataset_raises.
Qed.

Lemma read_groups_is_Some (gs : list (string * list string)) : ∀ temp temp' k,
  for_each (fun temp '(group, names) =>
              for_each (read_dataset h5f pair beam group) names temp) gs temp
    = Ok temp' →
  is_Some (temp' !! k) ↔
  is_Some (temp !! k)
  ∨ existsb (fun '(group, names) =>
               bool_decide (k ∈ names)
               && bool_decide (is_Some (h5f !! DS pair beam group k))) gs
    = true.
Proof.
  induction gs as [|[group names] gs IH]; intros temp temp' k; simpl.
  - intros [= <-]. split; [eauto|]. intros [|]; done.
  - destruct (for_each _ names temp) as [temp1|] eqn:Hg; [|done].
    simpl. intros H. rewrite (IH _ _ _ H), (read_group_is_Some _ _ _ _ _ Hg).
    rewrite orb_true_iff, andb_true_iff, !bool_decide_eq_true. tauto.
Qed.

(** What was read is what the file holds. *)
Lemma read_fields_is_Some temp k :
  read_fields h5f pair beam = Ok temp →
  is_Some (temp !! k) ↔ in_file h5f pair beam k = true.
Proof.
  intros H. unfold read_fields in H.
  rewrite (read_groups_is_Some _ _ _ k H), lookup_empty.
  unfold in_file. split; [|eauto]. intros [[? ?]|]; done.
Qed.

(** The loops raise nothing but the [ValueError] of an integer dataset with
    a fill value. *)
Lemma read_fields_raises e :
  read_fields h5f pair beam = Raise e → e = ValueError.
Proof.
  unfold read_fields. generalize (∅ : gmap string ndarray).
  induction datasets as [|[group names] gs IH]; intros temp; simpl; [done|].
  destruct (for_each _ names temp) eqn:Hg; simpl.
  - apply IH.
  - intros [= <-]. by eapply read_group_raises.
Qed.

Lemma in_file_false d group names :
  in_file h5f pair beam d = false →
  (group, names) ∈ datasets → d ∈ names → h5f !! DS pair beam group d = None.
Proof.
  unfold in_file. intros H Hg Hd.
  apply eq_None_not_Some. intros Hs.
  apply not_true_iff_false in H. apply H.
  apply existsb_exists. exists (group, names).
  split; [by apply list_elem_of_In|].
  by rewrite andb_true_iff, !bool_decide_eq_true.
Qed.

Lemma read_fields_nothing :
  (∀ d, in_file h5f pair beam d = false) → read_fields h5f pair beam = Ok ∅.
Proof.
  intros H. unfold read_fields. apply for_each_unchanged.
  intros [group names] Hg. apply for_each_unchanged. intros d Hd.
  unfold read_dataset. by rewrite (in_file_false _ _ _ (H d) Hg Hd).
Qed.

Lemma read_fields_not_in_file temp k :
  read_fields h5f pair beam = Ok temp → temp !! k = None →
  in_file h5f pair beam k = false.
Proof.
  intros H Hk. apply not_true_iff_false.
  rewrite <- (read_fields_is_Some _ _ H), Hk. by intros [? ?].
Qed.

End ReadFields.

Lemma setitem_nan_raises a idx e :
  setitem_nan a idx = Raise e → e = IndexError ∨ e = ValueError.
Proof.
  destruct idx as [|ix]; simpl; [intros [= <-]; by left|].
  destruct a as [d|]; [|intros [= <-]; by right].
  destruct (for_each set_nan_at ix d) as [|e'] eqn:H; simpl; [done|].
  intros [= <-]. left. revert d H.
  induction ix as [|i ix IH]; intros d; simpl; [done|].
  destruct (set_nan_at d i) as [d'|e0] eqn:Hi; simpl; [apply IH|].
  intros [= <-]. unfold set_nan_at in Hi. case_decide; [done|]. by injection Hi.
Qed.

(** C5, as the specification states it, fails: a beam whose file has no
    [geoid_h] dataset is read without any error, whatever the projection
    returns, and its record simply has no [geoid_h] field. *)
Lemma missing_geoid_is_skipped :
  in_file beam_without_geoid 1 "r" "geoid_h" = false
  ∧ (∀ ll2ps uninitialised,
       read_beam ll2ps uninitialised beam_without_geoid 1 "r"
       = '(x, y) ← ll2ps [150; 150; 150]%float [-80; -80.1; -80.2]%float;
         Ok (Some (record_without_geoid uninitialised x y)))
  ∧ (∀ uninitialised x y,
       record_without_geoid uninitialised x y !! "geoid_h" = None).
Proof.
  split; [reflexivity|]. split.
  - intros. vm_compute. reflexivity.
  - intros. vm_compute. reflexivity.
Qed.

Section ReadBeam.
Variable ll2ps : list float → list float → result (list float * list float).
Variable uninitialised : nat → float.
Variable h5f : gmap string h5dataset.
Variables (pair : nat) (beam : string).

(** C5 (amended): a dataset that is absent from the file is passed over
    during extraction, its [KeyError] caught.  A [KeyError] reaches the
    caller only from the later lines, for one of [longitude], [latitude],
    [h_li], [atl06_quality_summary] that was absent (or from the
    projection); a record that is produced lacks every absent field, which
    is then one of the tide, atmosphere and geoid fields; and a beam with no
    dataset at all is left out without an error. *)
Theorem absent_field_is_skipped :
  (∀ k, read_beam ll2ps uninitialised h5f pair beam = Raise (KeyError k) →
     (k ∈ read_later ∧ in_file h5f pair beam k = false)
     ∨ ∃ lon lat, ll2ps lon lat = Raise (KeyError k))
  ∧ (∀ d rec, d ∈ read_later ++ not_read_later →
       in_file h5f pair beam d = false →
       read_beam ll2ps uninitialised h5f pair beam = Ok (Some rec) →
       d ∈ not_read_later ∧ rec !! d = None)
  ∧ ((∀ d, in_file h5f pair beam d = false) →
       read_beam ll2ps uninitialised h5f pair beam = Ok None).
Proof.
  unfold read_beam.
  destruct (read_fields h5f pair beam) as [temp|e] eqn:Hrf; simpl.
  2:{ split; [|split].
      - intros k [= ->]. by apply read_fields_raises in Hrf.
      - done.
      - intros H. by rewrite read_fields_nothing in Hrf. }
  split; [|split].
  - intros k. case_decide; [|done]. unfold getitem.
    destruct (temp !! "longitude") as [lon|] eqn:Hlon; simpl.
    2:{ intros [= <-]. left. split; [set_solver|].
        by eapply read_fields_not_in_file. }
    destruct (temp !! "latitude") as [lat|] eqn:Hlat; simpl.
    2:{ intros [= <-]. left. split; [set_solver|].
        by eapply read_fields_not_in_file. }
    destruct (ll2ps _ _) as [[x y]|e] eqn:Hps; simpl.
    2:{ intros [= ->]. right. eauto. }
    rewrite !lookup_insert_ne by done.
    destruct (temp !! "h_li") as [h|] eqn:Hh; simpl.
    2:{ intros [= <-]. left. split; [set_solver|].
        by eapply read_fields_not_in_file. }
    destruct (temp !! "atl06_quality_summary") as [q|] eqn:Hq; simpl.
    2:{ intros [= <-]. left. split; [set_solver|].
        by eapply read_fields_not_in_file. }
    destruct (setitem_nan h q) eqn:Hset; simpl; [done|].
    intros [= ->]. by destruct (setitem_nan_raises _ _ _ Hset).
  - intros d rec Hd Hfile. case_decide; [|done]. unfold getitem.
    destruct (temp !! "longitude") as [lon|] eqn:Hlon; simpl; [|done].
    destruct (temp !! "latitude") as [lat|] eqn:Hlat; simpl; [|done].
    destruct (ll2ps _ _) as [[x y]|e] eqn:Hps; simpl; [|done].
    rewrite !lookup_insert_ne by done.
    destruct (temp !! "h_li") as [h|] eqn:Hh; simpl; [|done].
    destruct (temp !! "atl06_quality_summary") as [q|] eqn:Hq; simpl; [|done].
    destruct (setitem_nan h q) eqn:Hset; simpl; [|done].
    intros [= <-].
    assert (Htemp : temp !! d = None).
    { apply eq_None_not_Some.
      rewrite (read_fields_is_Some _ _ _ _ _ Hrf), Hfile. done. }
    assert (Hnot : d ∈ not_read_later).
    { change (d ∈ read_later ++ not_read_later) in Hd.
      apply elem_of_app in Hd as [Hd|Hd]; [|done].
      unfold read_later in Hd.
      repeat (apply elem_of_cons in Hd as [->|Hd]; [congruence|]).
      by apply elem_of_nil in Hd. }
    split; [done|]. unfold not_read_later in Hnot.
    repeat (apply elem_of_cons in Hnot as [->|Hnot];
            [by rewrite !lookup_insert_ne by done|]).
    by apply elem_of_nil in Hnot.
  - intros H. rewrite read_fields_nothing in Hrf by done.
    by injection Hrf as <-.
Qed.

End ReadBeam.

Lemma absent_field_is_skipped_witness :
  "geoid_h" ∈ not_read_later
  ∧ record_without_geoid (fun _ => 0%float)
      [150; 150; 150]%float [-80; -80.1; -80.2]%float !! "geoid_h" = None.
Proof.
  apply (proj1 (proj2 (absent_field_is_skipped
                         (fun lon lat => Ok (lon, lat)) (fun _ => 0%float)
                         beam_without_geoid 1 "r")) "geoid_h").
  - repeat constructor.
  - reflexivity.
  - vm_compute. reflexivity.
Defined.

(** ** Cell 5: the fill value *)

(** C9, as the specification states it for every numeric array, fails: on
    an integer array the fill-value line raises [ValueError], because NaN
    cannot be stored in it, and a file whose integer dataset declares a fill
    value makes the extraction of the beam fail, whatever the projection. *)
Lemma integer_fill_value_raises :
  fill_missing (Int [0; 1; 1]%Z) 127 = Raise ValueError
  ∧ read_fields beam_with_integer_fill 1 "r" = Raise ValueError
  ∧ ∀ ll2ps uninitialised,
      read_beam ll2ps uninitialised beam_with_integer_fill 1 "r"
      = Raise ValueError.
Proof.
  assert (H : read_fields beam_with_integer_fill 1 "r" = Raise ValueError)
    by (vm_compute; reflexivity).
  split; [reflexivity|]. split; [exact H|].
  intros ll2ps uninitialised. unfold read_beam. by rewrite H.
Qed.

(** C9 (amended): on a float array the fill-value line replaces exactly the
    elements that equal the fill value by the missing marker and leaves
    every other element, and the length, as they are; cell 5 stores the
    array so treated for a float dataset that declares a fill value.  For
    an integer dataset that declares a fill value the line raises
    [ValueError]. *)
Theorem normalize_replaces_fill (a : list float) (fill_value : float)
    (i : nat) (x : float) :
  a !! i = Some x →
  length (normalize a fill_value) = length a
  ∧ ((x =? fill_value)%float = true → normalize a fill_value !! i = Some nan)
  ∧ ((x =? fill_value)%float = false → normalize a fill_value !! i = Some x)
  ∧ (∀ h5f pair beam group temp d,
       h5f !! DS pair beam group d = Some (H5Dataset (F64 a) (Some fill_value)) →
       read_dataset h5f pair beam group temp d
       = Ok (<[d := F64 (normalize a fill_value)]> temp))
  ∧ ∀ ix h5f pair beam group temp d,
      h5f !! DS pair beam group d = Some (H5Dataset (Int ix) (Some fill_value)) →
      read_dataset h5f pair beam group temp d = Raise ValueError.
Proof.
  intros Hi. unfold normalize. split; [apply length_map|].
  rewrite list_lookup_fmap, Hi. simpl.
  split; [by intros ->|]. split; [by intros ->|]. split.
  - intros h5f pair beam group temp d Hd. unfold read_dataset. by rewrite Hd.
  - intros ix h5f pair beam group temp d Hd. unfold read_dataset.
    by rewrite Hd.
Qed.

Lemma normalize_replaces_fill_witness :
  normalize [1; -9999; 3]%float (-9999)%float = [1; nan; 3]%float
  ∧ normalize [1; -9999; 3]%float (-9999)%float !! 1 = Some nan
  ∧ normalize [1; -9999; 3]%float (-9999)%float !! 2 = Some 3%float.
Proof.
  split; [reflexivity|].
  destruct (normalize_replaces_fill [1; -9999; 3]%float (-9999)%float
              1 (-9999)%float eq_refl) as (_ & H1 & _).
  destruct (normalize_replaces_fill [1; -9999; 3]%float (-9999)%float
              2 3%float eq_refl) as (_ & _ & H2 & _).
  split; [apply H1|apply H2]; reflexivity.
Defined.

(** ** Cells 30 and 31: the sources of the interpolation *)

Lemma grid_with_gap_sources :
  interp_sources grid_with_gap
  = Ok ([(1000, -4000); (2000, -5000)]%float, [12.5; nan]%float).
Proof. vm_compute. reflexivity. Qed.

(** C6, as the specification states it, fails: a grid point of the Byrd box
    whose value is missing stays among the source points, and the
    interpolator is called with it, whatever the interpolator and the
    record. *)
Lemma missing_source_reaches_griddata :
  interp_sources grid_with_gap
  = Ok ([(1000, -4000); (2000, -5000)]%float, [12.5; nan]%float)
  ∧ ∀ griddata Di,
      FAC_interp griddata grid_with_gap Di
      = (q ← xy_data Di;
         v ← griddata [(1000, -4000); (2000, -5000)]%float
               [12.5; nan]%float q;
         Ok (<["FAC_interp" := F64 v]> Di)).
Proof.
  split; [apply grid_with_gap_sources|].
  intros. unfold FAC_interp. rewrite grid_with_gap_sources. reflexivity.
Qed.

(** C6 (amended): the source points passed to the interpolator are exactly
    the grid points whose longitude and latitude lie in the box
    147 < lon < 163, -82 < lat < -78, each with its projected coordinates
    and its value as it is; the value plays no part in the selection, so a
    point whose value is missing is passed on like any other. *)
Theorem interp_sources_are_box_points (g : fac_grid) :
  length (lat_fac g) = length (lon_fac g) →
  length (x_fac g) = length (lon_fac g) →
  length (y_fac g) = length (lon_fac g) →
  length (meanFirnAir_16 g) = length (lon_fac g) →
  ∃ xy vals, interp_sources g = Ok (xy, vals) ∧ length xy = length vals
    ∧ ∀ x y v, ((x, y), v) ∈ zip xy vals ↔
        ∃ i lon lat,
          lon_fac g !! i = Some lon ∧ lat_fac g !! i = Some lat
          ∧ in_box byrd_interp_box lon lat = true
          ∧ x_fac g !! i = Some x ∧ y_fac g !! i = Some y
          ∧ meanFirnAir_16 g !! i = Some v.
Proof.
  intros Hlat Hx Hy Hv. unfold interp_sources, inds.
  rewrite broadcast2_same_length by done. simpl.
  set (mask := zip_with (in_box byrd_interp_box) (lon_fac g) (lat_fac g)).
  assert (Hmask : ∀ i, i ∈ Np.where_ mask ↔
            ∃ lon lat, lon_fac g !! i = Some lon ∧ lat_fac g !! i = Some lat
                       ∧ in_box byrd_interp_box lon lat = true).
  { intros i. rewrite where_elem. unfold mask. rewrite lookup_zip_with_Some.
    split; [intros (lon & lat & ? & ? & ?)|intros (lon & lat & ? & ? & ?)];
      exists lon, lat; eauto. }
  assert (Hlt : ∀ i, i ∈ Np.where_ mask → i < length (lon_fac g)).
  { intros i Hi. apply Hmask in Hi as (lon & _ & Hlon & _).
    by eapply lookup_lt_Some. }
  destruct (take_inds_Ok (meanFirnAir_16 g) (Np.where_ mask))
    as (vals & -> & Hlv & Hvals); [intros; rewrite Hv; auto|].
  destruct (take_inds_Ok (x_fac g) (Np.where_ mask))
    as (xs & -> & Hlx & Hxs); [intros; rewrite Hx; auto|].
  destruct (take_inds_Ok (y_fac g) (Np.where_ mask))
    as (ys & -> & Hly & Hys); [intros; rewrite Hy; auto|].
  simpl. exists (zip xs ys), vals. split; [done|].
  split; [rewrite length_zip_with; lia|].
  intros x y v. rewrite list_elem_of_lookup. split.
  - intros (j & Hj).
    apply lookup_zip_with_Some in Hj as (p & v' & [= <- <-] & Hp & Hvj).
    apply lookup_zip_with_Some in Hp as (x' & y' & [= <- <-] & Hxj & Hyj).
    destruct (lookup_lt_is_Some_2 (Np.where_ mask) j) as [i Hi].
    { rewrite <- Hlv. by eapply lookup_lt_Some. }
    destruct (proj1 (Hmask i)) as (lon & lat & ? & ? & ?).
    { apply list_elem_of_lookup. eauto. }
    exists i, lon, lat.
    rewrite <- (Hxs _ _ Hi), <- (Hys _ _ Hi), <- (Hvals _ _ Hi). done.
  - intros (i & lon & lat & Hlon & Hla & Hbox & Hxi & Hyi & Hvi).
    assert (Hi : i ∈ Np.where_ mask) by (apply Hmask; eauto).
    apply list_elem_of_lookup in Hi as [j Hj].
    exists j. apply lookup_zip_with_Some. exists (x, y), v. split; [done|].
    rewrite (Hvals _ _ Hj). split; [|done].
    apply lookup_zip_with_Some. exists x, y.
    by rewrite (Hxs _ _ Hj), (Hys _ _ Hj).
Qed.

Lemma interp_sources_are_box_points_witness :
  ∃ xy vals, interp_sources grid_with_gap = Ok (xy, vals)
    ∧ length xy = length vals
    ∧ ((2000, -5000)%float, nan) ∈ zip xy vals.
Proof.
  destruct (interp_sources_are_box_points grid_with_gap
              eq_refl eq_refl eq_refl eq_refl) as (xy & vals & Hs & Hl & Hin).
  exists xy, vals. split; [exact Hs|]. split; [exact Hl|].
  apply Hin. exists 1, 151%float, (-80)%float. repeat split; reflexivity.
Defined.

(** ** Cells 37 and 39: the regional mean *)

(** C8: the regional mean of cell 37 does not ignore missing values.  Over
    the samples 1.0, missing, 3.0 the Byrd series ([np.mean]) gives the
    missing marker where the specification requires 2.0; the Larsen C
    series of cell 39 ([np.nanmean]) gives 2.0 for the same samples, and the
    missing marker when no sample is valid. *)
Theorem byrd_mean_counts_missing :
  mean_fac_byrd_series [150; 151; 152]%float [-80; -80; -80]%float
    [[1; nan; 3]%float] [2016%float] = Ok [nan]
  ∧ mean_fac_larsen_series [-63; -63; -63]%float [-67; -67; -67]%float
      [[1; nan; 3]%float] [2016%float] = Ok [2%float]
  ∧ mean_fac_larsen_series [-63; -63; -63]%float [-67; -67; -67]%float
      [[nan; nan; nan]%float] [2016%float] = Ok [nan].
Proof. repeat split; vm_compute; reflexivity. Qed.

(** ** Cells 37 and 39: the cumulative height change *)

Lemma cumsum_from_lookup_0 (l : list float) acc :
  Np.cumsum_from acc l !! 0 = (fun v => (acc + v)%float) <$> l !! 0.
Proof. by destruct l. Qed.

Lemma cumsum_from_lookup_S (l : list float) : ∀ acc k,
  Np.cumsum_from acc l !! S k =
  match Np.cumsum_from acc l !! k, l !! S k with
  | Some s, Some v => Some (s + v)%float
  | _, _ => None
  end.
Proof.
  induction l as [|v l IH]; intros acc k; simpl; [by destruct k|].
  destruct k as [|k]; simpl.
  - rewrite cumsum_from_lookup_0. by destruct (l !! 0).
  - apply IH.
Qed.

Lemma cumsum_lookup_S (l : list float) k :
  Np.cumsum l !! S k =
  match Np.cumsum l !! k, l !! S k with
  | Some s, Some v => Some (s + v)%float
  | _, _ => None
  end.
Proof.
  destruct l as [|v l]; simpl; [done|].
  destruct k as [|k]; simpl.
  - rewrite cumsum_from_lookup_0. by destruct (l !! 0).
  - apply cumsum_from_lookup_S.
Qed.

Lemma length_cumsum (l : list float) : length (Np.cumsum l) = length l.
Proof.
  destruct l as [|v l]; simpl; [done|]. f_equal.
  generalize v. induction l as [|w l IH]; intros acc; simpl; [done|].
  by rewrite IH.
Qed.

Lemma length_diff (x : list float) : length (Np.diff x) = length x - 1.
Proof. unfold Np.diff. rewrite length_zip_with, length_drop, length_take. lia. Qed.

Lemma diff_lookup (x : list float) j :
  S j < length x → Np.diff x !! j = Some (nth (S j) x 0 - nth j x 0)%float.
Proof.
  intros Hj. unfold Np.diff. apply lookup_zip_with_Some.
  destruct (lookup_lt_is_Some_2 x (S j)) as [hi Hhi]; [done|].
  destruct (lookup_lt_is_Some_2 x j) as [lo Hlo]; [lia|].
  exists hi, lo.
  rewrite (nth_lookup_Some _ _ _ _ Hhi), (nth_lookup_Some _ _ _ _ Hlo).
  split; [done|]. split.
  - by rewrite lookup_drop.
  - rewrite lookup_take_lt by lia. done.
Qed.

Lemma length_panels y x :
  length x = length y → length (panels y x) = length y - 1.
Proof.
  intros H. unfold panels.
  rewrite !length_zip_with, length_diff, length_drop, length_take. lia.
Qed.

Lemma panels_lookup y x j :
  length x = length y → S j < length y →
  panels y x !! j = Some (panel y x j).
Proof.
  intros Hlen Hj. unfold panels, panel. apply lookup_zip_with_Some.
  destruct (lookup_lt_is_Some_2 y (S j)) as [hi Hhi]; [done|].
  destruct (lookup_lt_is_Some_2 y j) as [lo Hlo]; [lia|].
  eexists _, _. split; [reflexivity|]. split; [apply diff_lookup; lia|].
  apply lookup_zip_with_Some. exists hi, lo.
  rewrite (nth_lookup_Some _ _ _ _ Hhi), (nth_lookup_Some _ _ _ _ Hlo).
  split; [done|]. split.
  - by rewrite lookup_drop.
  - rewrite lookup_take_lt by lia. done.
Qed.

(** [cumtrapz] is the trapezoidal rule, one value per interval. *)
Lemma cumtrapz_trapezoid (y x : list float) :
  length x = length y → y ≠ [] →
  cumtrapz y x = Ok (Np.cumsum (panels y x))
  ∧ length (Np.cumsum (panels y x)) + 1 = length y
  ∧ ∀ k, k < length (Np.cumsum (panels y x)) →
      Np.cumsum (panels y x) !! k = Some (trapezoid_area y x k).
Proof.
  intros Hlen Hy.
  assert (0 < length y) by (destruct y; [done|simpl; lia]).
  split; [|split].
  - unfold cumtrapz. rewrite decide_True; [done|]. rewrite length_diff. lia.
  - rewrite length_cumsum, length_panels by done. lia.
  - rewrite length_cumsum, length_panels by done.
    induction k as [|k IH]; intros Hk.
    + simpl. rewrite <- (panels_lookup y x 0) by (done || lia).
      by destruct (panels y x).
    + rewrite cumsum_lookup_S, IH by lia.
      rewrite panels_lookup by (done || lia). done.
Qed.

Lemma cumsum_zero_valued (l : list float) :
  Forall zero_valued l → Forall zero_valued (Np.cumsum l).
Proof.
  destruct l as [|v l]; simpl; [done|].
  intros [Hv Hl]%Forall_cons. apply Forall_cons. split; [done|].
  revert v Hv. induction Hl as [|w l Hw Hl IH]; intros acc Hacc; simpl; [done|].
  apply Forall_cons. split; [by apply add_zero_zero|].
  apply IH. by apply add_zero_zero.
Qed.

Lemma constant_anomaly (c m : float) (n : nat) :
  is_finite c = true → m = c →
  map (fun v => (v - m)%float) (replicate n c) = replicate n 0%float.
Proof.
  intros Hc ->. induction n as [|n IH]; simpl; [done|].
  by rewrite IH, sub_diag_finite.
Qed.

Lemma panels_of_zeros (n : nat) (x : list float) :
  Forall (fun d => is_finite d = true) (Np.diff x) →
  Forall zero_valued (panels (replicate n 0%float) x).
Proof.
  intros Hd. unfold panels. apply Forall_lookup. intros j v Hj.
  apply lookup_zip_with_Some in Hj as (d & s & -> & Hdj & Hs).
  apply lookup_zip_with_Some in Hs as (hi & lo & -> & Hhi & Hlo).
  rewrite lookup_drop in Hhi. apply lookup_replicate in Hhi as [-> _].
  apply lookup_take_Some in Hlo as [Hlo _].
  apply lookup_replicate in Hlo as [-> _].
  apply div_zero_two, mul_zero_r.
  - by eapply (proj1 (Forall_lookup _ _) Hd).
  - exists false. reflexivity.
Qed.

(** C10, as the specification states it for every constant series, fails:
    for the constant 0.1 over three unit time steps [np.mean] returns
    0.10000000000000002, the anomalies are not zero and neither is any
    value of the cumulative series. *)
Lemma constant_series_not_all_zeros :
  Np.mean [0.1; 0.1; 0.1]%float = 0.10000000000000002%float
  ∧ cumulative_anomaly Np.mean [0.1; 0.1; 0.1]%float [0; 1; 2]%float
    = Ok [-1.3877787807814457e-17; -2.7755575615628914e-17]%float
  ∧ (-1.3877787807814457e-17 =? 0)%float = false
  ∧ (-2.7755575615628914e-17 =? 0)%float = false.
Proof. repeat split; vm_compute; reflexivity. Qed.

(** C10 (amended): for a series and time points of one length, the mean
    (the sum over the number of values) is removed and [cumtrapz] returns a
    series one shorter than its input, whose k-th value is the trapezoidal
    rule's area under the anomalies up to the (k+1)-th time point; for a
    constant series for which [np.mean] returns the constant itself (as for
    1.0), with finite time steps, every value of the result is zero. *)
Theorem cumulative_anomaly_trapezoid (y x : list float) :
  length x = length y → y ≠ [] →
  ∃ out, cumulative_anomaly Np.mean y x = Ok out
    ∧ length out + 1 = length y
    ∧ (∀ k, k < length out →
         out !! k
         = Some (trapezoid_area
                   (map (fun v => (v - Np.sum y / Np.count (length y))%float) y)
                   x k))
    ∧ (∀ c, y = replicate (length y) c → is_finite c = true →
         Np.mean y = c →
         Forall (fun d => is_finite d = true) (Np.diff x) →
         Forall (fun v => (v =? 0)%float = true) out).
Proof.
  intros Hlen Hy. unfold cumulative_anomaly.
  change (Np.sum y / Np.count (length y))%float with (Np.mean y).
  set (a := map (fun v => (v - Np.mean y)%float) y).
  assert (Hla : length a = length y) by apply length_map.
  destruct (cumtrapz_trapezoid a x) as (Hc & Hl & Hk).
  { by rewrite Hla. }
  { intros Ha. rewrite Ha in Hla. by destruct y. }
  exists (Np.cumsum (panels a x)). split; [done|].
  split; [by rewrite <- Hla|]. split; [done|].
  intros c Hyc Hfin Hmean Hd.
  eapply Forall_impl; [|intros v; apply eqb_zero_spec].
  apply cumsum_zero_valued. unfold a.
  pose proof (constant_anomaly c (Np.mean y) (length y) Hfin Hmean) as Hz.
  rewrite <- Hyc in Hz. rewrite Hz. by apply panels_of_zeros.
Qed.

Lemma cumulative_anomaly_trapezoid_witness :
  cumulative_anomaly Np.mean [1; 1; 1; 1]%float [0; 1; 2; 3]%float
  = Ok [0; 0; 0]%float
  ∧ cumulative_anomaly Np.mean [1; 1; 1]%float [0; 1; 2]%float
    = Ok [0; 0]%float
  ∧ cumulative_anomaly Np.mean [1; 2; 3]%float [0; 1; 2]%float
    = Ok [-0.5; 0]%float
  ∧ ∃ out, cumulative_anomaly Np.mean [1; 1; 1; 1]%float [0; 1; 2; 3]%float
           = Ok out
      ∧ length out + 1 = 4
      ∧ Forall (fun v => (v =? 0)%float = true) out.
Proof.
  split; [vm_compute; reflexivity|]. split; [vm_compute; reflexivity|].
  split; [vm_compute; reflexivity|].
  destruct (cumulative_anomaly_trapezoid
              [1; 1; 1; 1]%float [0; 1; 2; 3]%float eq_refl)
    as (out & Hout & Hlen & _ & Hzero); [done|].
  exists out. split; [exact Hout|]. split; [exact Hlen|].
  apply (Hzero 1%float); [reflexivity|reflexivity|vm_compute; reflexivity|].
  repeat constructor.
Defined.

(** * Further properties *)

(** [evaluate t as H] records that the closed run [t] returns its value. *)
Tactic Notation "evaluate" constr(t) "as" ident(H) :=
  assert (H : t = Ok (returned t)) by (vm_compute; reflexivity).

Tactic Notation "evaluate" "record" constr(t) "as" ident(H) :=
  assert (H : t = Ok (Some (appended t))) by (vm_compute; reflexivity).

(** ** Cell 5: the quality line and the records of [D6] *)

Lemma set_nan_at_Ok (d : list float) (i : Z) :
  (- Z.of_nat (length d) ≤ i < Z.of_nat (length d))%Z →
  set_nan_at d i = Ok (<[wrap_index (length d) i := nan]> d)
  ∧ wrap_index (length d) i < length d.
Proof.
  intros Hi. unfold set_nan_at, wrap_index. rewrite decide_True by done.
  split; [done|]. case_decide; lia.
Qed.

Lemma for_each_set_nan_at (ix : list Z) : ∀ d : list float,
  (∀ i, i ∈ ix → (- Z.of_nat (length d) ≤ i < Z.of_nat (length d))%Z) →
  ∃ d', for_each set_nan_at ix d = Ok d' ∧ length d' = length d
    ∧ ∀ j, d' !! j = if decide (j ∈ wrap_index (length d) <$> ix)
                     then Some nan else d !! j.
Proof.
  induction ix as [|i ix IH]; intros d Hin; simpl.
  - exists d. split; [done|]. split; [done|]. intros j.
    by destruct (decide (j ∈ wrap_index (length d) <$> [])) as [?%elem_of_nil|].
  - destruct (set_nan_at_Ok d i) as [-> Hw]; [apply Hin; by left|]. simpl.
    destruct (IH (<[wrap_index (length d) i := nan]> d)) as (d' & -> & Hl & Hj).
    { intros i' Hi'. rewrite length_insert. apply Hin. by right. }
    rewrite length_insert in Hl, Hj.
    exists d'. split; [done|]. split; [done|]. intros j. rewrite Hj.
    destruct (decide (j ∈ wrap_index (length d) <$> ix)) as [Hjx|Hjx].
    + rewrite decide_True; [done|]. by right.
    + destruct (decide (j = wrap_index (length d) i)) as [->|Hne].
      * rewrite decide_True by (by left).
        by apply list_lookup_insert_eq.
      * rewrite decide_False.
        -- by apply list_lookup_insert_ne.
        -- intros [|]%elem_of_cons; done.
Qed.

(** X1: the quality line [temp['h_li'][temp['atl06_quality_summary']] = np.NaN]
    uses the integer flags as positions.  With every flag in range, the
    heights at the positions the flags name (negative ones from the end)
    become missing and all other heights are unchanged; with flags that are
    0 or 1, no height from the third on is changed, whatever its flag. *)
Theorem quality_flags_address_positions (d : list float) (ix : list Z) :
  (∀ i, i ∈ ix → (- Z.of_nat (length d) ≤ i < Z.of_nat (length d))%Z) →
  ∃ d', setitem_nan (F64 d) (Int ix) = Ok (F64 d')
    ∧ length d' = length d
    ∧ (∀ i, i ∈ ix → d' !! wrap_index (length d) i = Some nan)
    ∧ (∀ j, (∀ i, i ∈ ix → wrap_index (length d) i ≠ j) → d' !! j = d !! j)
    ∧ ((∀ i, i ∈ ix → i = 0 ∨ i = 1)%Z → ∀ j, 2 ≤ j → d' !! j = d !! j).
Proof.
  intros Hin. destruct (for_each_set_nan_at ix d Hin) as (d' & Hd' & Hl & Hj).
  exists d'. simpl. rewrite Hd'. split; [done|]. split; [done|].
  assert (Hother : ∀ j, (∀ i, i ∈ ix → wrap_index (length d) i ≠ j) →
                        d' !! j = d !! j).
  { intros j Hne. rewrite Hj, decide_False; [done|].
    intros (i & -> & Hi)%list_elem_of_fmap. by apply (Hne i). }
  split; [|split; [exact Hother|]].
  - intros i Hi. rewrite Hj, decide_True; [done|].
    apply list_elem_of_fmap. eauto.
  - intros Hflags j Hj2. apply Hother. intros i Hi.
    unfold wrap_index. destruct (Hflags i Hi) as [->| ->]; simpl; lia.
Qed.

Lemma quality_flags_address_positions_witness :
  setitem_nan (F64 [10; 11; 12; 13]%float) (Int [0; 1; 1; 0]%Z)
  = Ok (F64 [nan; nan; 12; 13]%float)
  ∧ ∃ d', setitem_nan (F64 [10; 11; 12; 13]%float) (Int [0; 1; 1; 0]%Z)
          = Ok (F64 d')
      ∧ d' !! 2 = Some 12%float ∧ d' !! 3 = Some 13%float.
Proof.
  split; [reflexivity|].
  destruct (quality_flags_address_positions
              [10; 11; 12; 13]%float [0; 1; 1; 0]%Z)
    as (d' & Hd' & _ & _ & _ & Hrest).
  { intros i Hi. simpl.
    repeat (apply elem_of_cons in Hi as [->|Hi]; [lia|]).
    by apply elem_of_nil in Hi. }
  exists d'. split; [exact Hd'|].
  assert (Hflags : ∀ i : Z, i ∈ [0; 1; 1; 0]%Z → (i = 0 ∨ i = 1)%Z).
  { intros i Hi.
    repeat (apply elem_of_cons in Hi as [->|Hi]; [lia|]).
    by apply elem_of_nil in Hi. }
  split; [apply (Hrest Hflags 2)|apply (Hrest Hflags 3)]; lia.
Defined.

Lemma set_nan_at_length (d d' : list float) (i : Z) :
  set_nan_at d i = Ok d' → length d' = length d.
Proof.
  unfold set_nan_at. case_decide; [|done]. intros [= <-]. apply length_insert.
Qed.

(** X2: a flag that is no valid position of the height array makes the
    quality line raise [IndexError]; so does any flag at all when the height
    array is empty. *)
Theorem quality_flag_out_of_range (d : list float) (ix : list Z) (i : Z) :
  i ∈ ix →
  ¬ (- Z.of_nat (length d) ≤ i < Z.of_nat (length d))%Z →
  setitem_nan (F64 d) (Int ix) = Raise IndexError.
Proof.
  intros Hi Hout. simpl.
  assert (H : for_each set_nan_at ix d = Raise IndexError); [|by rewrite H].
  revert d Hout. induction ix as [|i' ix IH]; intros d Hout; simpl.
  - by apply elem_of_nil in Hi.
  - destruct (set_nan_at d i') as [d1|e] eqn:H1; simpl.
    + apply elem_of_cons in Hi as [->|Hi].
      * unfold set_nan_at in H1. by rewrite decide_False in H1.
      * apply IH; [done|]. by rewrite (set_nan_at_length _ _ _ H1).
    + unfold set_nan_at in H1. case_decide; [done|]. by injection H1 as <-.
Qed.

Lemma quality_flag_out_of_range_witness :
  setitem_nan (F64 [10; 11]%float) (Int [0; 2]%Z) = Raise IndexError
  ∧ setitem_nan (F64 []) (Int [0]%Z) = Raise IndexError.
Proof.
  split.
  - apply (quality_flag_out_of_range [10; 11]%float [0; 2]%Z 2%Z).
    + right. left.
    + simpl. lia.
  - apply (quality_flag_out_of_range [] [0]%Z 0%Z).
    + left.
    + simpl. lia.
Defined.

Lemma setitem_nan_Ok (a idx a' : ndarray) :
  setitem_nan a idx = Ok a' →
  ∃ d ix d', a = F64 d ∧ idx = Int ix ∧ a' = F64 d' ∧ length d' = length d.
Proof.
  destruct idx as [|ix]; simpl; [done|]. destruct a as [d|]; [|done].
  destruct (for_each set_nan_at ix d) as [d'|] eqn:H; simpl; [|done].
  intros [= <-]. exists d, ix, d'. repeat split.
  revert d H. induction ix as [|i ix IH]; intros d; simpl.
  - by intros [= <-].
  - destruct (set_nan_at d i) as [d1|] eqn:H1; simpl; [|done].
    intros H. rewrite (IH _ H). by eapply set_nan_at_length.
Qed.

Section Records.
Variable ll2ps : list float → list float → result (list float * list float).
Variable uninitialised : nat → float.
Variable h5f : gmap string h5dataset.
Variables (pair : nat) (beam : string).

(** What a record that cell 5 appends is made of. *)
Lemma read_beam_Some rec :
  read_beam ll2ps uninitialised h5f pair beam = Ok (Some rec) →
  ∃ temp lon lat x y h q h',
    read_fields h5f pair beam = Ok temp
    ∧ temp !! "longitude" = Some lon ∧ temp !! "latitude" = Some lat
    ∧ ll2ps (as_f64 lon) (as_f64 lat) = Ok (x, y)
    ∧ temp !! "h_li" = Some h ∧ temp !! "atl06_quality_summary" = Some q
    ∧ setitem_nan h q = Ok h'
    ∧ rec = <["h_li" := h']>
              (<["FAC_interp" := F64 (empty_like uninitialised y)]>
                 (<["mask" := F64 (empty_like uninitialised y)]>
                    (<["y" := F64 y]> (<["x" := F64 x]> temp)))).
Proof.
  unfold read_beam.
  destruct (read_fields h5f pair beam) as [temp|] eqn:Hrf; simpl; [|done].
  case_decide; [|done]. unfold getitem.
  destruct (temp !! "longitude") as [lon|] eqn:Hlon; simpl; [|done].
  destruct (temp !! "latitude") as [lat|] eqn:Hlat; simpl; [|done].
  destruct (ll2ps _ _) as [[x y]|e] eqn:Hps; simpl; [|done].
  rewrite !lookup_insert_ne by done.
  destruct (temp !! "h_li") as [h|] eqn:Hh; simpl; [|done].
  destruct (temp !! "atl06_quality_summary") as [q|] eqn:Hq; simpl; [|done].
  destruct (setitem_nan h q) as [h'|] eqn:Hset; simpl; [|done].
  intros [= <-]. exists temp, lon, lat, x, y, h, q, h'. by repeat split.
Qed.

(** X3: every record that cell 5 appends to [D6] has the projected
    coordinates [x] and [y], a [mask] and a [FAC_interp] placeholder of the
    length of [y], its heights as a float array and its quality flags as an
    integer array, next to [longitude] and [latitude]; any other field it
    has is a dataset of the file. *)
Theorem appended_record_fields rec :
  read_beam ll2ps uninitialised h5f pair beam = Ok (Some rec) →
  ∃ x y mask fac h q,
    rec !! "x" = Some (F64 x) ∧ rec !! "y" = Some (F64 y)
    ∧ rec !! "mask" = Some (F64 mask) ∧ length mask = length y
    ∧ rec !! "FAC_interp" = Some (F64 fac) ∧ length fac = length y
    ∧ rec !! "h_li" = Some (F64 h)
    ∧ rec !! "atl06_quality_summary" = Some (Int q)
    ∧ is_Some (rec !! "longitude") ∧ is_Some (rec !! "latitude")
    ∧ ∀ k, is_Some (rec !! k) →
        k ∈ ["x"; "y"; "mask"; "FAC_interp"] ∨ in_file h5f pair beam k = true.
Proof.
  intros (temp & lon & lat & x & y & h & q & h' & Hrf & Hlon & Hlat & Hps
          & Hh & Hq & Hset & ->)%read_beam_Some.
  destruct (setitem_nan_Ok _ _ _ Hset) as (d & ix & d' & -> & -> & -> & Hl).
  exists x, y, (empty_like uninitialised y), (empty_like uninitialised y), d', ix.
  assert (Hlen : length (empty_like uninitialised y) = length y).
  { unfold empty_like. by rewrite length_map, length_seq. }
  assert (Hfile : ∀ k v, temp !! k = Some v → in_file h5f pair beam k = true).
  { intros k v Hk. apply (read_fields_is_Some _ _ _ _ _ Hrf). by rewrite Hk. }
  split; [by simplify_map_eq|]. split; [by simplify_map_eq|].
  split; [by simplify_map_eq|]. split; [done|].
  split; [by simplify_map_eq|]. split; [done|].
  split; [by simplify_map_eq|]. split; [by simplify_map_eq|].
  split; [simplify_map_eq; eauto|]. split; [simplify_map_eq; eauto|].
  intros k [v Hk].
  destruct (decide (k = "h_li")) as [->|]; [right; by eapply Hfile|].
  destruct (decide (k = "FAC_interp")) as [->|]; [left; set_solver|].
  destruct (decide (k = "mask")) as [->|]; [left; set_solver|].
  destruct (decide (k = "y")) as [->|]; [left; set_solver|].
  destruct (decide (k = "x")) as [->|]; [left; set_solver|].
  right. rewrite !lookup_insert_ne in Hk by done. by eapply Hfile.
Qed.

(** X4: once the loops have read a beam, an absent [longitude] is fatal as
    soon as any dataset of the beam was present: the line that projects the
    coordinates raises [KeyError] for it; with [longitude] present, an
    absent [latitude] raises in the same way. *)
Theorem absent_coordinate_raises temp d :
  read_fields h5f pair beam = Ok temp →
  in_file h5f pair beam d = true →
  (in_file h5f pair beam "longitude" = false →
   read_beam ll2ps uninitialised h5f pair beam = Raise (KeyError "longitude"))
  ∧ (in_file h5f pair beam "longitude" = true →
     in_file h5f pair beam "latitude" = false →
     read_beam ll2ps uninitialised h5f pair beam = Raise (KeyError "latitude")).
Proof.
  intros Hrf Hd. unfold read_beam. rewrite Hrf. simpl.
  assert (Hsize : 0 < size temp).
  { apply (read_fields_is_Some _ _ _ _ _ Hrf) in Hd as [v Hv].
    destruct (decide (size temp = 0)) as [Hz|]; [|lia].
    apply map_size_empty_iff in Hz. by rewrite Hz, lookup_empty in Hv. }
  rewrite decide_True by done.
  assert (Hnone : ∀ k, in_file h5f pair beam k = false → temp !! k = None).
  { intros k Hk. apply eq_None_not_Some.
    rewrite (read_fields_is_Some _ _ _ _ _ Hrf), Hk. done. }
  split.
  - intros Hlon. unfold getitem. by rewrite (Hnone _ Hlon).
  - intros Hlon Hlat.
    apply (read_fields_is_Some _ _ _ _ _ Hrf) in Hlon as [lon Hlon].
    unfold getitem. rewrite Hlon. simpl. by rewrite (Hnone _ Hlat).
Qed.

(** X5: a record made from a file without [geoid_h] is appended without an
    error, but cell 33 then fails on it: the line for [h_MSL] raises
    [KeyError] for [geoid_h], whatever the configuration. *)
Theorem record_without_geoid_fails_later rec (c : config) :
  read_beam ll2ps uninitialised h5f pair beam = Ok (Some rec) →
  in_file h5f pair beam "geoid_h" = false →
  h_MSL c rec = Raise (KeyError "geoid_h")
  ∧ thickness c rec = Raise (KeyError "geoid_h").
Proof.
  intros (temp & lon & lat & x & y & h & q & h' & Hrf & Hlon & Hlat & Hps
          & Hh & Hq & Hset & ->)%read_beam_Some Hgeoid.
  assert (Hnone : temp !! "geoid_h" = None).
  { apply eq_None_not_Some.
    rewrite (read_fields_is_Some _ _ _ _ _ Hrf), Hgeoid. done. }
  assert (Hm : ∀ Di : gmap string ndarray,
             Di !! "h_li" = Some h' → Di !! "geoid_h" = None →
             h_MSL c Di = Raise (KeyError "geoid_h")).
  { intros Di H1 H2. unfold h_MSL, getitem. by rewrite H1, H2. }
  split.
  - apply Hm; by simplify_map_eq.
  - unfold thickness. rewrite Hm; [done| |]; by simplify_map_eq.
Qed.

End Records.

Lemma appended_record_fields_witness :
  ∃ rec x y mask fac h q,
    read_beam (fun lon lat => Ok (lon, lat)) (fun _ => 0%float)
      complete_beam 1 "r" = Ok (Some rec)
    ∧ rec !! "x" = Some (F64 x) ∧ rec !! "y" = Some (F64 y)
    ∧ rec !! "mask" = Some (F64 mask) ∧ length mask = length y
    ∧ rec !! "FAC_interp" = Some (F64 fac) ∧ length fac = length y
    ∧ rec !! "h_li" = Some (F64 h)
    ∧ rec !! "atl06_quality_summary" = Some (Int q).
Proof.
  evaluate record (read_beam (fun lon lat => Ok (lon, lat)) (fun _ => 0%float)
                     complete_beam 1 "r") as H.
  destruct (appended_record_fields _ _ _ _ _ _ H)
    as (x & y & mask & fac & h & q & Hx & Hy & Hm & Hlm & Hf & Hlf & Hh & Hq & _).
  eexists _, x, y, mask, fac, h, q. split; [exact H|]. by repeat split.
Defined.

Lemma absent_coordinate_raises_witness :
  read_beam (fun lon lat => Ok (lon, lat)) (fun _ => 0%float)
    (delete "/gt1r/land_ice_segments/longitude" complete_beam) 1 "r"
  = Raise (KeyError "longitude")
  ∧ read_beam (fun lon lat => Ok (lon, lat)) (fun _ => 0%float)
      (delete "/gt1r/land_ice_segments/latitude" complete_beam) 1 "r"
    = Raise (KeyError "latitude").
Proof.
  split.
  - evaluate (read_fields (delete "/gt1r/land_ice_segments/longitude"
                             complete_beam) 1 "r") as H.
    apply (proj1 (absent_coordinate_raises _ _ _ _ _ _ "h_li" H
                    ltac:(vm_compute; reflexivity))).
    vm_compute. reflexivity.
  - evaluate (read_fields (delete "/gt1r/land_ice_segments/latitude"
                             complete_beam) 1 "r") as H.
    apply (proj2 (absent_coordinate_raises _ _ _ _ _ _ "h_li" H
                    ltac:(vm_compute; reflexivity)));
      vm_compute; reflexivity.
Defined.

Lemma record_without_geoid_fails_later_witness :
  thickness notebook_config
    (record_without_geoid (fun _ => 0%float)
       [150; 150; 150]%float [-80; -80.1; -80.2]%float)
  = Raise (KeyError "geoid_h").
Proof.
  apply (record_without_geoid_fails_later
           (fun lon lat => Ok (lon, lat)) (fun _ => 0%float)
           beam_without_geoid 1 "r").
  - vm_compute. reflexivity.
  - reflexivity.
Defined.

(** ** Cell 5: the files and the list [D6] *)

Lemma every_other_lookup {A} (l : list A) : ∀ i, every_other l !! i = l !! (2 * i).
Proof.
  assert (H : ∀ n (l : list A), length l ≤ n →
            ∀ i, every_other l !! i = l !! (2 * i)).
  { induction n as [|n IH]; intros k Hk i.
    - destruct k; [by destruct i|simpl in Hk; lia].
    - destruct k as [|a [|b k]]; [by destruct i| |].
      + destruct i as [|i]; [done|]. simpl. by rewrite Nat.add_succ_r.
      + destruct i as [|i]; [done|]. simpl. rewrite Nat.add_succ_r. simpl.
        rewrite IH by (simpl in Hk; lia). try (f_equal; lia). }
  by apply (H (length l)).
Qed.

Section Files.
Variable ll2ps : list float → list float → result (list float * list float).
Variable uninitialised : nat → float.

(** X6: only the files at even positions of the file list are read
    ([files[::2]]): two lists of files that agree at the even positions
    give the same [D6], or the same error. *)
Theorem odd_files_are_not_read (files files' : list (gmap string h5dataset)) :
  (∀ i, files !! (2 * i) = files' !! (2 * i)) →
  read_files ll2ps uninitialised files = read_files ll2ps uninitialised files'.
Proof.
  intros H. unfold read_files. f_equal.
  apply list_eq. intros i. by rewrite !every_other_lookup.
Qed.

(** X7: reading one file leaves the records already in [D6] in place and
    appends at most one record per pair, in the order of the pairs, each of
    them the record of that pair's right beam; an error in any pair makes
    the whole file fail. *)
Theorem read_file_appends (h5f : gmap string h5dataset)
    (D6 : list (gmap string ndarray)) :
  (∀ D6', read_file ll2ps uninitialised h5f D6 = Ok D6' →
     ∃ new, D6' = D6 ++ new ∧ length new ≤ 3
       ∧ new = omap (fun pair =>
                       match read_beam ll2ps uninitialised h5f pair "r" with
                       | Ok r => r
                       | Raise _ => None
                       end) pairs)
  ∧ (∀ pair e, pair ∈ pairs →
       read_beam ll2ps uninitialised h5f pair "r" = Raise e →
       ∃ e', read_file ll2ps uninitialised h5f D6 = Raise e').
Proof.
  unfold read_file, pairs, beams. simpl.
  destruct (read_beam ll2ps uninitialised h5f 1 "r") as [r1|e1] eqn:H1; simpl.
  2:{ split; [done|]. eauto. }
  destruct (read_beam ll2ps uninitialised h5f 2 "r") as [r2|e2] eqn:H2; simpl.
  2:{ split; [done|]. eauto. }
  destruct (read_beam ll2ps uninitialised h5f 3 "r") as [r3|e3] eqn:H3; simpl.
  2:{ split; [done|]. eauto. }
  split.
  - intros D6' [= <-].
    exists (omap (fun pair =>
                    match read_beam ll2ps uninitialised h5f pair "r" with
                    | Ok r => r
                    | Raise _ => None
                    end) [1; 2; 3]).
    split; [|split]; simpl; rewrite H1, H2, H3;
      destruct r1 as [r1|], r2 as [r2|], r3 as [r3|]; simpl;
      rewrite <- ?app_assoc, ?app_nil_r; done || lia.
  - intros pair e Hp He.
    repeat (apply elem_of_cons in Hp as [->|Hp]; [congruence|]).
    by apply elem_of_nil in Hp.
Qed.

End Files.

Lemma read_file_appends_witness :
  ∃ new, read_file (fun lon lat => Ok (lon, lat)) (fun _ => 0%float)
           complete_beam [sample_record] = Ok ([sample_record] ++ new)
    ∧ length new ≤ 3.
Proof.
  evaluate (read_file (fun lon lat => Ok (lon, lat)) (fun _ => 0%float)
              complete_beam [sample_record]) as H.
  destruct (proj1 (read_file_appends _ _ complete_beam [sample_record]) _ H)
    as (new & Hn & Hl & _).
  exists new. split; [|exact Hl]. rewrite <- Hn. exact H.
Defined.

Lemma odd_files_are_not_read_witness :
  read_files (fun lon lat => Ok (lon, lat)) (fun _ => 0%float)
    [complete_beam; beam_without_geoid]
  = read_files (fun lon lat => Ok (lon, lat)) (fun _ => 0%float)
      [complete_beam; ∅].
Proof.
  apply odd_files_are_not_read. intros [|[|i]]; reflexivity.
Defined.

(** ** Cell 5: what the loops store *)

Lemma for_each_cons_Ok {S X} (body : S → X → result S) x xs s s' :
  for_each body (x :: xs) s = Ok s' →
  ∃ s1, body s x = Ok s1 ∧ for_each body xs s1 = Ok s'.
Proof. simpl. destruct (body s x) as [s1|]; simpl; [eauto|done]. Qed.

Section Stored.
Variable h5f : gmap string h5dataset.
Variables (pair : nat) (beam : string).

Lemma read_dataset_other group temp d temp' k :
  read_dataset h5f pair beam group temp d = Ok temp' → k ≠ d →
  temp' !! k = temp !! k.
Proof.
  unfold read_dataset. intros H Hk.
  destruct (h5f !! _) as [ds|]; [|by injection H as <-].
  destruct (ds_FillValue ds).
  - destruct (fill_missing _ _); simpl in H; [|done].
    injection H as <-. by rewrite lookup_insert_ne.
  - injection H as <-. by rewrite lookup_insert_ne.
Qed.

Lemma read_dataset_same group temp d temp' ds :
  read_dataset h5f pair beam group temp d = Ok temp' →
  h5f !! DS pair beam group d = Some ds →
  ∃ a, temp' !! d = Some a
     ∧ match ds_FillValue ds with
       | Some fv => fill_missing (ds_data ds) fv = Ok a
       | None => a = ds_data ds
       end.
Proof.
  unfold read_dataset. intros H Hds. rewrite Hds in H.
  destruct (ds_FillValue ds) as [fv|].
  - destruct (fill_missing _ _) as [a|]; simpl in H; [|done].
    injection H as <-. exists a. by rewrite lookup_insert_eq.
  - injection H as <-. eexists. by rewrite lookup_insert_eq.
Qed.

Lemma read_group_other group names : ∀ temp temp' k,
  for_each (read_dataset h5f pair beam group) names temp = Ok temp' →
  k ∉ names → temp' !! k = temp !! k.
Proof.
  induction names as [|d names IH]; intros temp temp' k; simpl.
  - by intros [= <-].
  - destruct (read_dataset h5f pair beam group temp d) as [t1|] eqn:Hd;
      simpl; [|done].
    intros H [Hne Hk]%not_elem_of_cons.
    by rewrite (IH _ _ _ H Hk), (read_dataset_other _ _ _ _ _ Hd Hne).
Qed.

Lemma read_group_stored group names : ∀ temp temp' d ds,
  NoDup names →
  for_each (read_dataset h5f pair beam group) names temp = Ok temp' →
  d ∈ names → h5f !! DS pair beam group d = Some ds →
  ∃ a, temp' !! d = Some a
     ∧ match ds_FillValue ds with
       | Some fv => fill_missing (ds_data ds) fv = Ok a
       | None => a = ds_data ds
       end.
Proof.
  induction names as [|d0 names IH]; intros temp temp' d ds Hnd; simpl.
  - intros _ H. by apply elem_of_nil in H.
  - apply NoDup_cons in Hnd as [Hd0 Hnd].
    destruct (read_dataset h5f pair beam group temp d0) as [t1|] eqn:H0;
      simpl; [|done].
    intros H [->|Hd]%elem_of_cons Hds.
    + destruct (read_dataset_same _ _ _ _ _ H0 Hds) as (a & Ha & Hs).
      exists a. by rewrite (read_group_other _ _ _ _ _ H Hd0).
    + by eapply IH.
Qed.

(** X8: when the loops of cell 5 complete, [temp] holds every dataset of
    the beam that the file has, under the dataset's name: as it is in the
    file when the dataset declares no fill value, and with the fill values
    replaced by the missing marker when a float dataset declares one.  No
    later dataset overwrites an earlier one. *)
Theorem read_fields_stores (temp : gmap string ndarray)
    (group : string) (names : list string) (d : string) :
  read_fields h5f pair beam = Ok temp →
  (group, names) ∈ datasets → d ∈ names →
  (∀ data, h5f !! DS pair beam group d = Some (H5Dataset data None) →
     temp !! d = Some data)
  ∧ (∀ data fv,
       h5f !! DS pair beam group d = Some (H5Dataset (F64 data) (Some fv)) →
       temp !! d = Some (F64 (normalize data fv))).
Proof.
  intros Hrf Hg Hd.
  assert (Hst : ∀ ds, h5f !! DS pair beam group d = Some ds →
            ∃ a, temp !! d = Some a
               ∧ match ds_FillValue ds with
                 | Some fv => fill_missing (ds_data ds) fv = Ok a
                 | None => a = ds_data ds
                 end).
  { intros ds Hds. unfold read_fields, datasets in Hrf.
    apply for_each_cons_Ok in Hrf as (t1 & H1 & Hrf).
    apply for_each_cons_Ok in Hrf as (t2 & H2 & Hrf).
    apply for_each_cons_Ok in Hrf as (t3 & H3 & Hrf).
    cbv beta iota in H1, H2, H3. simpl in Hrf.
    injection Hrf as <-. unfold datasets in Hg.
    apply elem_of_cons in Hg as [[= -> ->]|Hg];
      [|apply elem_of_cons in Hg as [[= -> ->]|Hg];
        [|apply elem_of_cons in Hg as [[= -> ->]|Hg];
          [|by apply elem_of_nil in Hg]]].
    - assert (Hnd : NoDup ["h_li"; "latitude"; "longitude";
                           "atl06_quality_summary"])
        by (repeat constructor; set_solver).
      destruct (read_group_stored _ _ _ _ _ _ Hnd H1 Hd Hds) as (a & Ha & Hs).
      exists a. split; [|done].
      rewrite (read_group_other _ _ _ _ _ H3), (read_group_other _ _ _ _ _ H2);
        [done| |];
        repeat (apply elem_of_cons in Hd as [->|Hd]; [set_solver|]);
        by apply elem_of_nil in Hd.
    - assert (Hnd : NoDup ["tide_load"; "dac"; "tide_ocean"])
        by (repeat constructor; set_solver).
      destruct (read_group_stored _ _ _ _ _ _ Hnd H2 Hd Hds) as (a & Ha & Hs).
      exists a. split; [|done].
      rewrite (read_group_other _ _ _ _ _ H3); [done|].
      repeat (apply elem_of_cons in Hd as [->|Hd]; [set_solver|]).
      by apply elem_of_nil in Hd.
    - assert (Hnd : NoDup ["geoid_h"]) by (repeat constructor; set_solver).
      exact (read_group_stored _ _ _ _ _ _ Hnd H3 Hd Hds). }
  split.
  - intros data Hds. by destruct (Hst _ Hds) as (a & -> & ->).
  - intros data fv Hds. destruct (Hst _ Hds) as (a & -> & Hs).
    simpl in Hs. by injection Hs as <-.
Qed.

End Stored.

Lemma read_fields_stores_witness :
  ∃ temp, read_fields complete_beam 1 "r" = Ok temp
    ∧ temp !! "geoid_h" = Some (F64 [-55; -55; -55]%float)
    ∧ temp !! "h_li"
      = Some (F64 (normalize [30; 3.4028234663852886e38; 32]%float
                     3.4028234663852886e38%float)).
Proof.
  evaluate (read_fields complete_beam 1 "r") as H.
  eexists. split; [exact H|]. split.
  - apply (proj1 (read_fields_stores complete_beam 1 "r" _
                    "land_ice_segments/dem" ["geoid_h"] "geoid_h" H
                    ltac:(by repeat constructor) ltac:(by left))).
    reflexivity.
  - apply (proj2 (read_fields_stores complete_beam 1 "r" _
                    "land_ice_segments"
                    ["h_li"; "latitude"; "longitude"; "atl06_quality_summary"]
                    "h_li" H ltac:(by repeat constructor) ltac:(by left))).
    reflexivity.
Defined.

(** ** More facts about binary64 arithmetic *)

Section MoreFloatFacts.
Implicit Types x y : float.

Lemma eqb_nan_l y : (nan =? y)%float = false.
Proof. rewrite FloatAxioms.eqb_spec. reflexivity. Qed.

Lemma eqb_nan_r x : (x =? nan)%float = false.
Proof.
  rewrite FloatAxioms.eqb_spec. change (Prim2SF nan) with S754_nan.
  unfold SFeqb, SFcompare. by destruct (Prim2SF x).
Qed.

Lemma ltb_nan_l y : (nan <? y)%float = false.
Proof. rewrite FloatAxioms.ltb_spec. reflexivity. Qed.

Lemma ltb_nan_r x : (x <? nan)%float = false.
Proof.
  rewrite FloatAxioms.ltb_spec. change (Prim2SF nan) with S754_nan.
  unfold SFltb, SFcompare. by destruct (Prim2SF x).
Qed.

Lemma ltb_irrefl x : (x <? x)%float = false.
Proof.
  rewrite FloatAxioms.ltb_spec. unfold SFltb, SFcompare.
  destruct (Prim2SF x) as [s|s| |s m e]; try done; try by destruct s.
  rewrite Z.compare_refl, Pos.compare_cont_refl. by destruct s.
Qed.

Lemma add_nan_l y : (nan + y)%float = nan.
Proof. apply Prim2SF_inj. rewrite FloatAxioms.add_spec. reflexivity. Qed.

Lemma add_nan_r x : (x + nan)%float = nan.
Proof.
  apply Prim2SF_inj. rewrite FloatAxioms.add_spec.
  change (Prim2SF nan) with S754_nan. by destruct (Prim2SF x).
Qed.

Lemma mul_nan_l y : (nan * y)%float = nan.
Proof. apply Prim2SF_inj. rewrite FloatAxioms.mul_spec. reflexivity. Qed.

Lemma is_infinity_opp x : is_infinity (- x) = is_infinity x.
Proof.
  unfold is_infinity. rewrite !FloatAxioms.eqb_spec, !abs_spec, opp_spec.
  by destruct (Prim2SF x).
Qed.

End MoreFloatFacts.

(** ** Cell 5: the fill-value line, applied twice or with a NaN fill value *)

(** X9: the fill-value line is idempotent, it never turns a missing value
    back into a number, and a fill value that is itself NaN replaces
    nothing. *)
Theorem normalize_idempotent (a : list float) (fill_value : float) :
  normalize (normalize a fill_value) fill_value = normalize a fill_value
  ∧ (∀ i, a !! i = Some nan → normalize a fill_value !! i = Some nan)
  ∧ normalize a nan = a.
Proof.
  unfold normalize. split; [|split].
  - rewrite <- list_fmap_compose. apply list_fmap_ext. intros i x _. simpl.
    destruct (x =? fill_value)%float eqn:Hx; [by rewrite eqb_nan_l|].
    by rewrite Hx.
  - intros i Hi. rewrite list_lookup_fmap, Hi. simpl. by rewrite eqb_nan_l.
  - rewrite <- (list_fmap_id a) at 2. apply list_fmap_ext. intros i x _.
    simpl. by rewrite eqb_nan_r.
Qed.

Lemma normalize_idempotent_witness :
  normalize (normalize [1; -9999; nan]%float (-9999)) (-9999)
  = normalize [1; -9999; nan]%float (-9999)
  ∧ normalize [1; -9999; nan]%float (-9999) !! 2 = Some nan
  ∧ normalize [1; -9999; nan]%float nan = [1; -9999; nan]%float.
Proof.
  destruct (normalize_idempotent [1; -9999; nan]%float (-9999)%float)
    as (Hidem & Hnan & _).
  split; [exact Hidem|]. split; [by apply Hnan|].
  apply (normalize_idempotent [1; -9999; nan]%float 0%float).
Defined.

(** ** Cells 30, 37 and 39: the selection of a region *)

(** X10: a grid point on the edge of a box, or with a missing longitude or
    latitude, is never selected: the four bounds are exclusive and every
    comparison with NaN is false. *)
Theorem box_excludes_edge_and_missing (b : box) (lon lat : float) :
  in_box b nan lat = false ∧ in_box b lon nan = false
  ∧ in_box b (lon_min b) lat = false ∧ in_box b (lon_max b) lat = false
  ∧ in_box b lon (lat_min b) = false ∧ in_box b lon (lat_max b) = false.
Proof.
  unfold in_box.
  rewrite !ltb_nan_l, !ltb_nan_r, !ltb_irrefl, ?andb_false_r. simpl.
  rewrite ?andb_false_r. done.
Qed.

Lemma where_from_sorted (mask : list bool) : ∀ k,
  StronglySorted lt (Np.where_from k mask).
Proof.
  induction mask as [|b mask IH]; intros k; simpl; [constructor|].
  destruct b; [|apply IH]. constructor; [apply IH|].
  apply Forall_forall. intros i Hi%where_from_elem. lia.
Qed.

Lemma inds_Ok (b : box) (lon lat : list float) :
  length lat = length lon →
  inds b lon lat = Ok (Np.where_ (zip_with (in_box b) lon lat)).
Proof.
  intros Hlen. unfold inds. by rewrite broadcast2_same_length.
Qed.

Lemma inds_elem (b : box) (lon lat : list float) i :
  i ∈ Np.where_ (zip_with (in_box b) lon lat) ↔
  ∃ lo la, lon !! i = Some lo ∧ lat !! i = Some la ∧ in_box b lo la = true.
Proof.
  rewrite where_elem, lookup_zip_with_Some.
  split; intros (lo & la & ? & ? & ?); exists lo, la; eauto.
Qed.

Lemma inds_bound (b : box) (lon lat : list float) i :
  i ∈ Np.where_ (zip_with (in_box b) lon lat) → i < length lon.
Proof.
  intros (lo & _ & Hlo & _)%inds_elem. by eapply lookup_lt_Some.
Qed.

(** X11: for coordinate grids of one shape, [np.where] on a box gives the
    positions of exactly the grid points inside the box, each once and in
    increasing order, all of them positions of the grid. *)
Theorem inds_in_order (b : box) (lon lat : list float) :
  length lat = length lon →
  ∃ l, inds b lon lat = Ok l
    ∧ StronglySorted lt l
    ∧ (∀ i, i ∈ l → i < length lon)
    ∧ ∀ i, i ∈ l ↔
        ∃ lo la, lon !! i = Some lo ∧ lat !! i = Some la
                 ∧ in_box b lo la = true.
Proof.
  intros Hlen. eexists. split; [by apply inds_Ok|].
  split; [apply where_from_sorted|].
  split; [apply inds_bound|apply inds_elem].
Qed.

Lemma inds_in_order_witness :
  ∃ l, inds byrd_box [150; 148; 151; nan]%float [-80; -80; -80; -80]%float
       = Ok l
    ∧ StronglySorted lt l ∧ 0 ∈ l ∧ 2 ∈ l.
Proof.
  destruct (inds_in_order byrd_box [150; 148; 151; nan]%float
              [-80; -80; -80; -80]%float eq_refl) as (l & Hl & Hs & _ & Hin).
  exists l. split; [exact Hl|]. split; [exact Hs|]. split; apply Hin.
  - exists 150%float, (-80)%float. by repeat split.
  - exists 151%float, (-80)%float. by repeat split.
Defined.

(** ** Cells 37 and 39: the series of regional means *)

Lemma list_of_length_8 {A} (r : list A) :
  length r = 8 → ∃ r0 r1 r2 r3 r4 r5 r6 r7, r = [r0; r1; r2; r3; r4; r5; r6; r7].
Proof.
  intros H. do 8 (destruct r as [|? r]; [done|]). destruct r; [|done].
  by eexists _, _, _, _, _, _, _, _.
Qed.


Lemma add_blocks_shape (blocks : nat) : ∀ r a,
  length r = 8 → 8 * blocks ≤ length a →
  length (Np.add_blocks blocks r a).1 = 8
  ∧ (Np.add_blocks blocks r a).2 = drop (8 * blocks) a.
Proof.
  induction blocks as [|b IH]; intros r a Hr Ha; simpl; [done|].
  destruct (IH (zip_with (fun x y => (x + y)%float) r (take 8 a)) (drop 8 a))
    as [H1 H2].
  - rewrite length_zip_with, length_take. lia.
  - rewrite length_drop. lia.
  - split; [done|]. rewrite H2, drop_drop. f_equal. lia.
Qed.

Lemma pairwise_sum_fuel_O (a : list float) :
  Np.pairwise_sum_fuel 0 a
  = if decide (length a < 8) then Np.sum_from 0 a else Np.sum_unrolled a.
Proof. simpl. by repeat case_decide. Qed.

Lemma pairwise_sum_fuel_S (fuel : nat) (a : list float) :
  Np.pairwise_sum_fuel (S fuel) a
  = if decide (length a < 8) then Np.sum_from 0 a
    else if decide (length a ≤ 128) then Np.sum_unrolled a
    else (Np.pairwise_sum_fuel fuel
            (take (length a / 2 - (length a / 2) mod 8) a)
          + Np.pairwise_sum_fuel fuel
              (drop (length a / 2 - (length a / 2) mod 8) a))%float.
Proof. reflexivity. Qed.

Lemma split_point (n : nat) :
  128 < n → 0 < n / 2 - (n / 2) mod 8 < n.
Proof.
  intros H. pose proof (Nat.mod_upper_bound (n / 2) 8).
  pose proof (Nat.div_mod_eq n 2). pose proof (Nat.mod_upper_bound n 2). lia.
Qed.

(** The pairwise sum satisfies the recursion of the C function: the levels
    it is given are enough. *)
Lemma pairwise_sum_fuel_enough (f1 : nat) : ∀ f2 a,
  length a ≤ f1 → length a ≤ f2 →
  Np.pairwise_sum_fuel f1 a = Np.pairwise_sum_fuel f2 a.
Proof.
  induction f1 as [|f1 IH]; intros f2 a H1 H2.
  - destruct a; [|simpl in H1; lia]. by destruct f2.
  - destruct f2 as [|f2].
    { destruct a; [|simpl in H2; lia]. done. }
    rewrite !pairwise_sum_fuel_S. case_decide; [done|]. case_decide; [done|].
    pose proof (split_point (length a)).
    f_equal; apply IH; rewrite ?length_take, ?length_drop; lia.
Qed.

Lemma pairwise_sum_small (a : list float) :
  length a < 8 → Np.pairwise_sum a = Np.sum_from 0 a.
Proof.
  intros H. unfold Np.pairwise_sum.
  destruct (length a) eqn:E;
    rewrite ?pairwise_sum_fuel_O, ?pairwise_sum_fuel_S, E;
    by rewrite decide_True.
Qed.

Lemma pairwise_sum_block (a : list float) :
  8 ≤ length a ≤ 128 → Np.pairwise_sum a = Np.sum_unrolled a.
Proof.
  intros H. unfold Np.pairwise_sum.
  destruct (length a) eqn:E; [lia|].
  rewrite pairwise_sum_fuel_S, E, decide_False by lia.
  by rewrite decide_True by lia.
Qed.

Lemma pairwise_sum_split (a : list float) :
  128 < length a →
  Np.pairwise_sum a
  = (Np.pairwise_sum (take (length a / 2 - (length a / 2) mod 8) a)
     + Np.pairwise_sum (drop (length a / 2 - (length a / 2) mod 8) a))%float.
Proof.
  intros H. pose proof (split_point (length a) H).
  unfold Np.pairwise_sum at 1.
  destruct (length a) as [|n] eqn:E; [lia|].
  rewrite pairwise_sum_fuel_S, !decide_False by lia. rewrite <- E in *.
  f_equal; apply pairwise_sum_fuel_enough;
    rewrite ?length_take, ?length_drop; lia.
Qed.

Section Absorbing.
Variable Q : float → Prop.
Hypothesis Q_add_l : ∀ x y, Q x → Q (x + y)%float.
Hypothesis Q_add_r : ∀ x y, Q y → Q (x + y)%float.

Lemma sum_from_absorbed (a : list float) : ∀ res,
  Q res → Q (Np.sum_from res a).
Proof.
  unfold Np.sum_from. induction a as [|x a IH]; intros res H; simpl; [done|].
  by apply IH, Q_add_l.
Qed.

Lemma sum_from_absorbs (a : list float) : ∀ res,
  Exists Q a → Q (Np.sum_from res a).
Proof.
  induction a as [|x a IH]; intros res H.
  - by apply Exists_nil in H.
  - apply Exists_cons in H as [H|H].
    + apply (sum_from_absorbed a), Q_add_r, H.
    + apply (IH _ H).
Qed.

Lemma zip_add_absorbs (r : list float) : ∀ k,
  length r = length k → Exists Q r ∨ Exists Q k →
  Exists Q (zip_with (fun x y => (x + y)%float) r k).
Proof.
  induction r as [|x r IH]; intros [|y k] Hl H; simpl in *; try done.
  - destruct H as [H|H]; by apply Exists_nil in H.
  - destruct H as [[H|H]%Exists_cons|[H|H]%Exists_cons].
    + left. by apply Q_add_l.
    + right. apply IH; [lia|by left].
    + left. by apply Q_add_r.
    + right. apply IH; [lia|by right].
Qed.

Lemma add_blocks_absorbs (blocks : nat) : ∀ r a,
  length r = 8 → 8 * blocks ≤ length a →
  Exists Q r ∨ Exists Q (take (8 * blocks) a) →
  Exists Q (Np.add_blocks blocks r a).1.
Proof.
  induction blocks as [|b IH]; intros r a Hr Ha H; simpl.
  - destruct H as [H|H]; [done|]. by apply Exists_nil in H.
  - apply IH.
    + rewrite length_zip_with, length_take. lia.
    + rewrite length_drop. lia.
    + replace (8 * S b) with (8 + 8 * b) in H by lia.
      rewrite <- take_take_drop, Exists_app in H.
      destruct H as [H|[H|H]]; [left|left|by right];
        (apply zip_add_absorbs; [rewrite length_take; lia|auto]).
Qed.

Lemma sum_unrolled_absorbs (a : list float) :
  8 ≤ length a → Exists Q a → Q (Np.sum_unrolled a).
Proof.
  intros Hlen H. unfold Np.sum_unrolled.
  pose proof (Nat.div_mod_eq (length a) 8) as Hdiv.
  pose proof (Nat.mod_upper_bound (length a) 8) as Hmod.
  set (b := length a / 8 - 1) in *.
  assert (Hb : 8 * b ≤ length (drop 8 a)) by (rewrite length_drop; lia).
  assert (Hr : length (take 8 a) = 8) by (rewrite length_take; lia).
  destruct (add_blocks_shape b (take 8 a) (drop 8 a) Hr Hb) as [H8 Hrest].
  pose proof (add_blocks_absorbs b (take 8 a) (drop 8 a) Hr Hb) as Habs.
  destruct (Np.add_blocks b (take 8 a) (drop 8 a)) as [r rest]. simpl in *.
  destruct (list_of_length_8 r H8)
    as (r0 & r1 & r2 & r3 & r4 & r5 & r6 & r7 & ->).
  rewrite <- (take_drop 8 a), <- (take_drop (8 * b) (drop 8 a)) in H.
  rewrite !Exists_app in H.
  destruct H as [H|[H|H]].
  - apply sum_from_absorbed. specialize (Habs (or_introl H)).
    repeat (apply Exists_cons in Habs as [Habs|Habs]; [by auto 6|]).
    by apply Exists_nil in Habs.
  - apply sum_from_absorbed. specialize (Habs (or_intror H)).
    repeat (apply Exists_cons in Habs as [Habs|Habs]; [by auto 6|]).
    by apply Exists_nil in Habs.
  - rewrite Hrest. by apply sum_from_absorbs.
Qed.

Lemma pairwise_sum_fuel_absorbs (fuel : nat) : ∀ a,
  Exists Q a → Q (Np.pairwise_sum_fuel fuel a).
Proof.
  induction fuel as [|fuel IH]; intros a H.
  - rewrite pairwise_sum_fuel_O.
    case_decide; [by apply sum_from_absorbs|].
    apply sum_unrolled_absorbs; done || lia.
  - rewrite pairwise_sum_fuel_S.
    case_decide; [by apply sum_from_absorbs|].
    case_decide; [apply sum_unrolled_absorbs; done || lia|].
    rewrite <- (take_drop (length a / 2 - (length a / 2) mod 8) a) in H at 1.
    apply Exists_app in H as [H|H]; [apply Q_add_l|apply Q_add_r]; by apply IH.
Qed.

Lemma sum_absorbs (a : list float) : Exists Q a → Q (Np.sum a).
Proof. intros H. by apply Q_add_r, pairwise_sum_fuel_absorbs. Qed.

End Absorbing.

Section Closed.
Variable P : float → Prop.
Hypothesis P_add : ∀ x y, P x → P y → P (x + y)%float.

Lemma sum_from_closed (a : list float) : ∀ res,
  P res → Forall P a → P (Np.sum_from res a).
Proof.
  unfold Np.sum_from. induction a as [|x a IH]; intros res H Ha; simpl; [done|].
  apply Forall_cons in Ha as [Hx Ha]. apply IH; [by apply P_add|done].
Qed.

Lemma zip_add_closed (r : list float) : ∀ k,
  Forall P r → Forall P k →
  Forall P (zip_with (fun x y => (x + y)%float) r k).
Proof.
  induction r as [|x r IH]; intros [|y k] Hr Hk; simpl; try done.
  apply Forall_cons in Hr as [Hx Hr]. apply Forall_cons in Hk as [Hy Hk].
  apply Forall_cons. split; [by apply P_add|by apply IH].
Qed.

Lemma add_blocks_closed (blocks : nat) : ∀ r a,
  Forall P r → Forall P a →
  Forall P (Np.add_blocks blocks r a).1 ∧ Forall P (Np.add_blocks blocks r a).2.
Proof.
  induction blocks as [|b IH]; intros r a Hr Ha; simpl; [done|].
  apply IH; [apply zip_add_closed; [done|by apply Forall_take]|].
  by apply Forall_drop.
Qed.

Lemma sum_unrolled_closed (a : list float) :
  P 0%float → Forall P a → P (Np.sum_unrolled a).
Proof.
  intros H0 Ha. unfold Np.sum_unrolled.
  destruct (add_blocks_closed (length a / 8 - 1) (take 8 a) (drop 8 a))
    as [Hr Hrest]; [by apply Forall_take|by apply Forall_drop|].
  destruct (Np.add_blocks _ _ _) as [r rest]. simpl in *.
  do 8 (destruct r as [|? r]; [by apply sum_from_closed|]).
  destruct r; [|by apply sum_from_closed].
  apply sum_from_closed; [|done].
  repeat (apply Forall_cons in Hr as [? Hr]). auto 8.
Qed.

Lemma pairwise_sum_fuel_closed (fuel : nat) : ∀ a,
  P 0%float → Forall P a → P (Np.pairwise_sum_fuel fuel a).
Proof.
  induction fuel as [|fuel IH]; intros a H0 Ha.
  - rewrite pairwise_sum_fuel_O.
    case_decide; [by apply sum_from_closed|by apply sum_unrolled_closed].
  - rewrite pairwise_sum_fuel_S.
    case_decide; [by apply sum_from_closed|].
    case_decide; [by apply sum_unrolled_closed|].
    apply P_add; apply IH; try done; [by apply Forall_take|by apply Forall_drop].
Qed.

Lemma sum_closed (a : list float) : P 0%float → Forall P a → P (Np.sum a).
Proof. intros H0 Ha. by apply P_add, pairwise_sum_fuel_closed. Qed.

End Closed.

Lemma sum_nan (a : list float) : nan ∈ a → Np.sum a = nan.
Proof.
  intros H. apply (sum_absorbs (fun x => x = nan)).
  - intros x y ->. apply add_nan_l.
  - intros x y ->. apply add_nan_r.
  - apply Exists_exists. eauto.
Qed.

Lemma sum_along_nan (a : list float) : nan ∈ a → Np.sum_along a = nan.
Proof.
  intros H. apply (sum_from_absorbs (fun x => x = nan)).
  - intros x y ->. apply add_nan_l.
  - intros x y ->. apply add_nan_r.
  - apply Exists_exists. eauto.
Qed.

Lemma sum_zeros (a : list float) :
  Forall (fun x => x = 0%float) a → Np.sum a = 0%float.
Proof.
  intros H. apply (sum_closed (fun x => x = 0%float)); [|done|done].
  by intros x y -> ->.
Qed.

Lemma mean_nan (a : list float) : nan ∈ a → Np.mean a = nan.
Proof. intros H. unfold Np.mean. rewrite (sum_nan _ H). apply div_nan_l. Qed.

Lemma mean_along_nan (a : list float) : nan ∈ a → Np.mean_along a = nan.
Proof.
  intros H. unfold Np.mean_along. rewrite (sum_along_nan _ H).
  apply div_nan_l.
Qed.

Lemma nanmean_all_nan (a : list float) :
  Forall (fun x => x = nan) a → Np.nanmean a = nan.
Proof.
  intros H. unfold Np.nanmean.
  assert (Hs : Np.sum (map (fun x => if is_nan x then 0%float else x) a)
               = 0%float).
  { apply sum_zeros.
    induction H as [|x a -> _ IH]; constructor; [reflexivity|exact IH]. }
  assert (Hf : filter (fun x => is_nan x = false) a = []).
  { clear Hs. induction H as [|x a -> _ IH]; [done|].
    rewrite filter_cons_False; [done|]. by vm_compute. }
  rewrite Hs, Hf. reflexivity.
Qed.

Lemma mapM_result_Ok {A B} (f : A → result B) (g : A → B) (l : list A) :
  (∀ x, x ∈ l → f x = Ok (g x)) → mapM f l = Ok (map g l).
Proof.
  induction l as [|x l IH]; intros H; simpl; [done|].
  rewrite H by left. simpl. rewrite IH by (intros; apply H; by right). done.
Qed.

Lemma mapM_result_inv {A B} (f : A → result B) (l : list A) (out : list B) :
  mapM f l = Ok out → Forall2 (fun x y => f x = Ok y) l out.
Proof.
  revert out. induction l as [|x l IH]; intros out; simpl.
  - intros [= <-]. constructor.
  - destruct (f x) as [y|] eqn:Hx; simpl; [|done].
    destruct (mapM f l) as [ys|]; simpl; [|done].
    intros [= <-]. constructor; [done|]. by apply IH.
Qed.

Lemma mapM_result_raises {A B} (f : A → result B) (l : list A) e :
  mapM f l = Raise e → ∃ x, x ∈ l ∧ f x = Raise e.
Proof.
  induction l as [|x l IH]; simpl; [done|].
  destruct (f x) as [y|e'] eqn:Hx; simpl.
  - destruct (mapM f l) as [ys|e'']; simpl; [done|].
    intros [= <-]. destruct IH as (x' & ? & ?); [done|].
    exists x'. split; [by right|done].
  - intros [= <-]. exists x. split; [by left|done].
Qed.

Lemma take_inds_raises {A} (a : list A) (l : list nat) e :
  Np.take_inds a l = Raise e → e = IndexError.
Proof.
  intros (i & _ & Hi)%mapM_result_raises.
  destruct (a !! i); [done|]. by injection Hi.
Qed.

(** The loop over the time steps, for a field of the grid's shape. *)
Lemma region_series_Ok (f : list float → float) (field : list (list float))
    (l : list nat) (time : list float) (n : nat) :
  (∀ i, i ∈ l → i < n) →
  Forall (fun grid => length grid = n) field →
  length time ≤ length field →
  ∃ out, region_series f field l time = Ok out ∧ length out = length time
    ∧ ∀ t grid, t < length time → field !! t = Some grid →
        ∃ v, Np.take_inds grid l = Ok v ∧ length v = length l
           ∧ (∀ k j, l !! k = Some j → v !! k = grid !! j)
           ∧ out !! t = Some (f v).
Proof.
  intros Hl Hfield Htime.
  assert (Hv : ∀ grid, grid ∈ field →
            ∃ v, Np.take_inds grid l = Ok v ∧ length v = length l
               ∧ ∀ k j, l !! k = Some j → v !! k = grid !! j).
  { intros grid Hg. apply take_inds_Ok. intros i Hi.
    rewrite (proj1 (Forall_forall _ _) Hfield grid Hg). auto. }
  set (g := fun t : nat =>
         match field !! t with
         | Some grid =>
             match Np.take_inds grid l with Ok v => f v | Raise _ => nan end
         | None => nan
         end).
  exists (map g (seq 0 (length time))). split.
  { unfold region_series. apply mapM_result_Ok. intros t Ht.
    apply elem_of_seq in Ht. unfold g.
    destruct (lookup_lt_is_Some_2 field t) as [grid Hg]; [lia|].
    rewrite Hg. destruct (Hv grid) as (v & -> & _);
      [by eapply list_elem_of_lookup_2|]. done. }
  split; [by rewrite length_map, length_seq|].
  intros t grid Ht Hg. destruct (Hv grid) as (v & Hv1 & Hv2 & Hv3);
    [by eapply list_elem_of_lookup_2|].
  exists v. split; [done|]. split; [done|]. split; [done|].
  rewrite list_lookup_fmap, lookup_seq_lt by done. simpl.
  unfold g. by rewrite Hg, Hv1.
Qed.

(** X12: for a field of the grid's shape with a slice for every time step,
    the Byrd series of cell 37 has one value per time step, and a time step
    at which some grid point inside the box has a missing value has a
    missing mean. *)
Theorem byrd_series_missing_sample (lon lat : list float)
    (FirnAir : list (list float)) (time_fac : list float) :
  length lat = length lon →
  Forall (fun grid => length grid = length lon) FirnAir →
  length time_fac ≤ length FirnAir →
  ∃ out, mean_fac_byrd_series lon lat FirnAir time_fac = Ok out
    ∧ length out = length time_fac
    ∧ ∀ t grid j lo la,
        t < length time_fac → FirnAir !! t = Some grid →
        lon !! j = Some lo → lat !! j = Some la →
        in_box byrd_box lo la = true → grid !! j = Some nan →
        out !! t = Some nan.
Proof.
  intros Hlen Hfield Htime. unfold mean_fac_byrd_series.
  rewrite (inds_Ok byrd_box lon lat Hlen). simpl.
  set (l := Np.where_ (zip_with (in_box byrd_box) lon lat)).
  pose proof (inds_bound byrd_box lon lat) as Hlt.
  pose proof (inds_elem byrd_box lon lat) as Hin. fold l in Hlt, Hin.
  destruct (region_series_Ok Np.mean FirnAir l time_fac (length lon)
              Hlt Hfield Htime) as (out & -> & Hout & Hval).
  exists out. split; [done|]. split; [done|].
  intros t grid j lo la Ht Hg Hlo Hla Hbox Hnan.
  destruct (Hval t grid Ht Hg) as (v & _ & _ & Hv & ->).
  f_equal. apply mean_nan.
  assert (Hj : j ∈ l) by (apply Hin; eauto).
  apply list_elem_of_lookup in Hj as [k Hk].
  apply list_elem_of_lookup. exists k. by rewrite (Hv _ _ Hk).
Qed.

Lemma byrd_series_missing_sample_witness :
  ∃ out, mean_fac_byrd_series [150; 151; 170]%float [-80; -80; -80]%float
           [[1; 2; 3]; [4; nan; 6]]%float [2015.5; 2016.5]%float = Ok out
    ∧ length out = 2 ∧ out !! 0 = Some 1.5%float ∧ out !! 1 = Some nan.
Proof.
  destruct (byrd_series_missing_sample [150; 151; 170]%float
              [-80; -80; -80]%float [[1; 2; 3]; [4; nan; 6]]%float
              [2015.5; 2016.5]%float eq_refl)
    as (out & Hout & Hlen & Hnan); [by repeat constructor|simpl; lia|].
  exists out. split; [exact Hout|]. split; [exact Hlen|]. split.
  - vm_compute in Hout. by injection Hout as <-.
  - by apply (Hnan 1 [4; nan; 6]%float 1 151%float (-80)%float); try (simpl; lia).
Defined.

(** X13: for a field of the grid's shape with a slice for every time step,
    the Larsen C series of cell 39 has one value per time step, and a time
    step at which no grid point inside the box has a value (or with no grid
    point inside the box at all) has a missing mean. *)
Theorem larsen_series_no_valid_sample (lon lat : list float)
    (FirnAir : list (list float)) (time_fac : list float) :
  length lat = length lon →
  Forall (fun grid => length grid = length lon) FirnAir →
  length time_fac ≤ length FirnAir →
  ∃ out, mean_fac_larsen_series lon lat FirnAir time_fac = Ok out
    ∧ length out = length time_fac
    ∧ ∀ t grid,
        t < length time_fac → FirnAir !! t = Some grid →
        (∀ j lo la, lon !! j = Some lo → lat !! j = Some la →
           in_box larsen_c_box lo la = true → grid !! j = Some nan) →
        out !! t = Some nan.
Proof.
  intros Hlen Hfield Htime. unfold mean_fac_larsen_series.
  rewrite (inds_Ok larsen_c_box lon lat Hlen). simpl.
  set (l := Np.where_ (zip_with (in_box larsen_c_box) lon lat)).
  pose proof (inds_bound larsen_c_box lon lat) as Hlt.
  pose proof (inds_elem larsen_c_box lon lat) as Hin. fold l in Hlt, Hin.
  destruct (region_series_Ok Np.nanmean FirnAir l time_fac (length lon)
              Hlt Hfield Htime) as (out & -> & Hout & Hval).
  exists out. split; [done|]. split; [done|].
  intros t grid Ht Hg Hall.
  destruct (Hval t grid Ht Hg) as (v & _ & Hlv & Hv & ->).
  f_equal. apply nanmean_all_nan. apply Forall_lookup. intros k x Hx.
  destruct (lookup_lt_is_Some_2 l k) as [j Hj].
  { rewrite <- Hlv. by eapply lookup_lt_Some. }
  rewrite (Hv _ _ Hj) in Hx.
  destruct (proj1 (Hin j)) as (lo & la & Hlo & Hla & Hbox).
  { by eapply list_elem_of_lookup_2. }
  rewrite (Hall j lo la Hlo Hla Hbox) in Hx. by injection Hx.
Qed.

Lemma larsen_series_no_valid_sample_witness :
  ∃ out, mean_fac_larsen_series [-63; -63.5; 150]%float [-67; -67; -67]%float
           [[1; nan; 3]; [nan; nan; 6]]%float [2015.5; 2016.5]%float = Ok out
    ∧ length out = 2 ∧ out !! 0 = Some 1%float ∧ out !! 1 = Some nan.
Proof.
  destruct (larsen_series_no_valid_sample [-63; -63.5; 150]%float
              [-67; -67; -67]%float [[1; nan; 3]; [nan; nan; 6]]%float
              [2015.5; 2016.5]%float eq_refl)
    as (out & Hout & Hlen & Hnan); [by repeat constructor|simpl; lia|].
  exists out. split; [exact Hout|]. split; [exact Hlen|]. split.
  - vm_compute in Hout. by injection Hout as <-.
  - apply (Hnan 1 [nan; nan; 6]%float); [simpl; lia|done|].
    intros [|[|[|j]]] lo la Hlo Hla Hbox; simpl in *; try done.
    injection Hlo as <-. injection Hla as <-. by vm_compute in Hbox.
Defined.

(** X14: a field with fewer time slices than there are time steps makes the
    loop of cells 37 and 39 fail with [IndexError], whatever the region and
    the mean that is taken. *)
Theorem region_series_short_field (f : list float → float)
    (field : list (list float)) (l : list nat) (time : list float) :
  length field < length time →
  region_series f field l time = Raise IndexError.
Proof.
  intros Hshort. destruct (region_series f field l time) as [out|e] eqn:H.
  - unfold region_series in H. apply mapM_result_inv in H.
    apply Forall2_lookup_l with (i := length field) (x := length field) in H
      as (y & _ & Hy).
    + by rewrite (lookup_ge_None_2 field) in Hy.
    + by apply lookup_seq_lt.
  - f_equal. unfold region_series in H.
    apply mapM_result_raises in H as (t & _ & Ht).
    destruct (field !! t) as [grid|]; [|by injection Ht].
    destruct (Np.take_inds grid l) eqn:Hv; simpl in Ht; [done|].
    injection Ht as <-. by eapply take_inds_raises.
Qed.

Lemma region_series_short_field_witness :
  region_series Np.mean [[1; 2]%float] [0] [2015; 2016]%float
  = Raise IndexError.
Proof. apply region_series_short_field. simpl. lia. Defined.

(** ** Cells 37 and 39: a missing value in the integrated series *)

Lemma cumsum_lookup_0 (l : list float) : Np.cumsum l !! 0 = l !! 0.
Proof. by destruct l. Qed.

Lemma cumsum_nan (l : list float) (k0 : nat) :
  l !! k0 = Some nan →
  ∀ k, k0 ≤ k → k < length l → Np.cumsum l !! k = Some nan.
Proof.
  intros Hk0.
  assert (Hbase : Np.cumsum l !! k0 = Some nan).
  { destruct k0 as [|k0]; [by rewrite cumsum_lookup_0|].
    rewrite cumsum_lookup_S, Hk0.
    destruct (lookup_lt_is_Some_2 (Np.cumsum l) k0) as [s ->].
    { rewrite length_cumsum. apply lookup_lt_Some in Hk0. lia. }
    by rewrite add_nan_r. }
  intros k Hk. induction Hk as [|k Hk IH]; intros Hlt; [done|].
  rewrite cumsum_lookup_S, IH by lia.
  destruct (lookup_lt_is_Some_2 l (S k)) as [v ->]; [done|].
  by rewrite add_nan_l.
Qed.

Lemma panel_nan (y x : list float) (j k : nat) :
  y !! j = Some nan → (j = k ∨ j = S k) → panel y x k = nan.
Proof.
  intros Hj Hk. unfold panel.
  assert (Hs : (nth (S k) y 0 + nth k y 0)%float = nan).
  { destruct Hk as [<- | <-]; rewrite (nth_lookup_Some _ _ _ _ Hj).
    - apply add_nan_r.
    - apply add_nan_l. }
  rewrite Hs, mul_nan_r. apply div_nan_l.
Qed.

Lemma cumtrapz_nan (y x : list float) (j : nat) :
  length x = length y → y !! j = Some nan →
  ∃ out, cumtrapz y x = Ok out ∧ length out + 1 = length y
    ∧ ∀ k, j - 1 ≤ k → k < length out → out !! k = Some nan.
Proof.
  intros Hlen Hj.
  assert (Hy : y ≠ []) by (intros ->; done).
  destruct (cumtrapz_trapezoid y x Hlen Hy) as (Hc & Hl & _).
  exists (Np.cumsum (panels y x)). split; [done|]. split; [done|].
  rewrite length_cumsum in *. rewrite (length_panels _ _ Hlen) in *.
  intros k Hk Hlt.
  apply lookup_lt_Some in Hj as Hjlt.
  apply (cumsum_nan _ (j - 1)); [|done|by rewrite length_panels].
  rewrite panels_lookup by (done || lia). f_equal.
  apply (panel_nan _ _ j); [done|lia].
Qed.

(** X15: a missing value in the series that is integrated makes the
    cumulative series missing from the interval before that value to the
    end, whichever mean is removed (cells 37 and 39); when the mean is
    [np.mean] (cell 37) the whole cumulative series is missing. *)
Theorem missing_month_poisons_cumulative (center : list float → float)
    (y x : list float) (j : nat) :
  length x = length y → y !! j = Some nan →
  (∃ out, cumulative_anomaly center y x = Ok out
     ∧ length out + 1 = length y
     ∧ ∀ k, j - 1 ≤ k → k < length out → out !! k = Some nan)
  ∧ (∃ out, cumulative_anomaly Np.mean y x = Ok out
       ∧ Forall (fun v => v = nan) out).
Proof.
  intros Hlen Hj. unfold cumulative_anomaly. split.
  - destruct (cumtrapz_nan (map (fun v => (v - center y)%float) y) x j)
      as (out & Hout & Hl & Hk).
    { by rewrite length_map. }
    { by rewrite list_lookup_fmap, Hj; simpl; rewrite sub_nan_l. }
    exists out. rewrite length_map in Hl. done.
  - assert (Hm : Np.mean y = nan).
    { apply mean_nan. by eapply list_elem_of_lookup_2. }
    rewrite Hm.
    destruct (y !! 0) as [y0|] eqn:H0.
    2:{ apply lookup_ge_None in H0. apply lookup_lt_Some in Hj. lia. }
    destruct (cumtrapz_nan (map (fun v => (v - nan)%float) y) x 0)
      as (out & Hout & Hl & Hk).
    { by rewrite length_map. }
    { by rewrite list_lookup_fmap, H0; simpl; rewrite sub_nan_r. }
    exists out. split; [done|]. apply Forall_lookup. intros k v Hv.
    rewrite Hk in Hv; [by injection Hv|lia|by eapply lookup_lt_Some].
Qed.

Lemma missing_month_poisons_cumulative_witness :
  (∃ out, cumulative_anomaly Np.nanmean [1; 2; 3; nan; 5]%float
            [0; 1; 2; 3; 4]%float = Ok out
     ∧ out !! 1 = Some (-1.5)%float ∧ out !! 2 = Some nan ∧ out !! 3 = Some nan)
  ∧ cumulative_anomaly Np.mean [1; 2; 3; nan; 5]%float [0; 1; 2; 3; 4]%float
    = Ok [nan; nan; nan; nan].
Proof.
  destruct (missing_month_poisons_cumulative Np.nanmean
              [1; 2; 3; nan; 5]%float [0; 1; 2; 3; 4]%float 3 eq_refl eq_refl)
    as ((out & Hout & Hl & Hk) & _).
  split; [|by vm_compute].
  exists out. split; [exact Hout|]. split.
  - vm_compute in Hout. by injection Hout as <-.
  - simpl in Hl. split; apply Hk; simpl; lia.
Defined.

(** ** Cell 33: what the thickness lines never return, and how they fail *)

Lemma is_nan_true x : is_nan x = true → x = nan.
Proof.
  unfold is_nan. rewrite FloatAxioms.eqb_spec. intros H.
  apply nan_spec. unfold SFeqb, SFcompare in H.
  destruct (Prim2SF x) as [[]|[]| |[] m e]; try done;
    by rewrite Z.compare_refl, Pos.compare_cont_refl in H.
Qed.

(** X16: whenever the factor [(1/rho_ice - 1/rho_ocean)**(-1)] evaluates,
    it is not an infinity: degenerate densities give an error or NaN, never
    an infinite factor. *)
Theorem buoyancy_factor_not_infinite (c : config) (k : float) :
  buoyancy_factor c = Ok k → is_infinity k = false.
Proof.
  unfold buoyancy_factor, float_div.
  destruct (rho_ice c =? 0)%float; [done|]. simpl.
  destruct (rho_ocean c =? 0)%float; [done|]. simpl.
  generalize (1 / rho_ice c - 1 / rho_ocean c)%float. intros iv.
  unfold float_pow_m1.
  destruct (is_nan iv) eqn:Hnan.
  { intros [= <-]. by rewrite (is_nan_true _ Hnan). }
  destruct (is_infinity iv) eqn:Hinf.
  { intros [= <-]. unfold signed_zero. by destruct (iv <? 0)%float. }
  destruct (iv =? 0)%float; [done|].
  destruct (iv <? 0)%float.
  - destruct (- iv =? 1)%float; [by intros [= <-]|].
    destruct (is_infinity (1 / - iv)) eqn:Hix; [done|].
    intros [= <-]. by rewrite is_infinity_opp.
  - destruct (iv =? 1)%float; [by intros [= <-]|].
    destruct (is_infinity (1 / iv)) eqn:Hix; [done|]. by intros [= <-].
Qed.

Lemma buoyancy_factor_not_infinite_witness :
  ∃ k, buoyancy_factor notebook_config = Ok k ∧ is_infinity k = false
     ∧ (8492 <? k)%float = true ∧ (k <? 8493)%float = true.
Proof.
  exists 8492.5765765765736%float. split; [reflexivity|].
  split; [|split; reflexivity].
  apply (buoyancy_factor_not_infinite notebook_config). reflexivity.
Defined.

Lemma broadcast2_mismatch {A B C} (f : A → B → C) (a : list A) (b : list B) :
  length a ≠ length b → length a ≠ 1 → length b ≠ 1 →
  Np.broadcast2 f a b = Raise ValueError.
Proof.
  intros H Ha Hb. unfold Np.broadcast2. rewrite decide_False by done.
  destruct a as [|x [|x' a]]; destruct b as [|y [|y' b]]; simpl in *; done.
Qed.

(** X17: cell 33 fails on a record it cannot use, before the densities are
    looked at: a record without heights raises [KeyError] for [h_li]; a
    geoid array whose length differs from that of the heights, neither
    being one, raises [ValueError]; and with heights and factor evaluated,
    a record without [FAC_interp] raises [KeyError] for it. *)
Theorem thickness_fails_on_unusable_record (c : config)
    (Di : gmap string ndarray) :
  (Di !! "h_li" = None → thickness c Di = Raise (KeyError "h_li"))
  ∧ (∀ h g, Di !! "h_li" = Some (F64 h) → Di !! "geoid_h" = Some (F64 g) →
       length g ≠ length h → length g ≠ 1 → length h ≠ 1 →
       thickness c Di = Raise ValueError)
  ∧ (∀ m k, h_MSL c Di = Ok m → buoyancy_factor c = Ok k →
       Di !! "FAC_interp" = None →
       thickness c Di = Raise (KeyError "FAC_interp")).
Proof.
  split; [|split].
  - intros H. unfold thickness, h_MSL, getitem. by rewrite H.
  - intros h g Hh Hg Hne Hg1 Hh1. unfold thickness, h_MSL, getitem.
    rewrite Hh, Hg. simpl.
    rewrite broadcast2_mismatch; [done| | |done]; rewrite length_map; done.
  - intros m k Hm Hk Hf. unfold thickness, getitem.
    rewrite Hm. simpl. rewrite Hk. simpl. by rewrite Hf.
Qed.

Lemma thickness_fails_on_unusable_record_witness :
  thickness (Config (-1.4) 917 917) (delete "h_li" sample_record)
  = Raise (KeyError "h_li")
  ∧ thickness notebook_config
      (<["geoid_h" := F64 [-55; -55]%float]> sample_record)
    = Raise ValueError
  ∧ thickness notebook_config (delete "FAC_interp" sample_record)
    = Raise (KeyError "FAC_interp").
Proof.
  split; [|split].
  - apply (proj1 (thickness_fails_on_unusable_record _ _)). reflexivity.
  - apply (proj1 (proj2 (thickness_fails_on_unusable_record _ _))
             [98.5; nan; 50]%float [-55; -55]%float); try reflexivity;
      simpl; lia.
  - destruct (h_MSL notebook_config (delete "FAC_interp" sample_record))
      as [m|e] eqn:Hm; [|vm_compute in Hm; discriminate Hm].
    apply (proj2 (proj2 (thickness_fails_on_unusable_record _ _))
             m 8492.5765765765736%float Hm); reflexivity.
Defined.

(** ** Cell 27: the 2016 mean of the firn air content *)

Lemma time_16_inds_elem (time_fac : list float) (t : nat) :
  t ∈ time_16_inds time_fac ↔
  ∃ tt, time_fac !! t = Some tt
        ∧ (2015.99 <? tt)%float && (tt <? 2017)%float = true.
Proof.
  unfold time_16_inds. rewrite where_elem, list_lookup_fmap.
  destruct (time_fac !! t) as [tt|]; simpl.
  - split; [intros [= H]; eauto|]. by intros (? & [= <-] & ->).
  - split; [done|]. by intros (? & ? & _).
Qed.

(** X18: for a field of [ncell] cells per slice with a slice for every time
    step, the 2016 mean has one value per grid cell; a cell that is missing
    in some time step of 2016 (2015.99 < t < 2017) is missing in the mean,
    and when no time step lies in 2016 every cell of the mean is missing. *)
Theorem meanFirnAir_16_missing (ncell : nat) (FirnAir : list (list float))
    (time_fac : list float) :
  Forall (fun grid => length grid = ncell) FirnAir →
  length time_fac ≤ length FirnAir →
  ∃ out, meanFirnAir_16_of ncell FirnAir time_fac = Ok out
    ∧ length out = ncell
    ∧ (∀ t tt grid j,
         time_fac !! t = Some tt →
         (2015.99 <? tt)%float && (tt <? 2017)%float = true →
         FirnAir !! t = Some grid → j < ncell → grid !! j = Some nan →
         out !! j = Some nan)
    ∧ ((∀ tt, tt ∈ time_fac →
          (2015.99 <? tt)%float && (tt <? 2017)%float = false) →
       out = replicate ncell nan).
Proof.
  intros _ Hlen. unfold meanFirnAir_16_of.
  destruct (take_inds_Ok FirnAir (time_16_inds time_fac))
    as (F16 & -> & Hl16 & H16).
  { intros t (tt & Htt & _)%time_16_inds_elem.
    apply lookup_lt_Some in Htt. lia. }
  simpl. eexists. split; [done|].
  split; [by rewrite length_map, length_seq|]. split.
  - intros t tt grid j Htt H2016 Hg Hj Hnan.
    rewrite list_lookup_fmap, lookup_seq_lt by done. simpl. f_equal.
    apply mean_along_nan.
    assert (Ht : t ∈ time_16_inds time_fac) by (apply time_16_inds_elem; eauto).
    apply list_elem_of_lookup in Ht as [k Hk].
    unfold cell_series. apply list_elem_of_fmap. exists grid. split.
    + by rewrite (nth_lookup_Some _ _ _ _ Hnan).
    + apply list_elem_of_lookup. exists k. by rewrite (H16 _ _ Hk).
  - intros Hnone.
    assert (Hnil : time_16_inds time_fac = []).
    { apply elem_of_nil_inv. intros t (tt & Htt & H)%time_16_inds_elem.
      rewrite Hnone in H; [done|]. by eapply list_elem_of_lookup_2. }
    rewrite Hnil in Hl16. destruct F16; [|done]. simpl.
    generalize 0. induction ncell as [|n IH]; intros s; simpl; [done|].
    by rewrite IH.
Qed.

Lemma meanFirnAir_16_missing_witness :
  ∃ out, meanFirnAir_16_of 2 [[1; 2]; [3; nan]; [5; 6]]%float
           [2015.5; 2016.25; 2016.75]%float = Ok out
    ∧ out !! 0 = Some 4%float ∧ out !! 1 = Some nan
    ∧ meanFirnAir_16_of 2 [[1; 2]; [3; nan]; [5; 6]]%float
        [2014; 2015; 2015.5]%float = Ok [nan; nan].
Proof.
  destruct (meanFirnAir_16_missing 2 [[1; 2]; [3; nan]; [5; 6]]%float
              [2015.5; 2016.25; 2016.75]%float)
    as (out & Hout & _ & Hnan & _); [by repeat constructor|simpl; lia|].
  exists out. split; [exact Hout|]. split; [|split].
  - vm_compute in Hout. by injection Hout as <-.
  - apply (Hnan 1 2016.25%float [3; nan]%float 1); done || lia.
  - destruct (meanFirnAir_16_missing 2 [[1; 2]; [3; nan]; [5; 6]]%float
                [2014; 2015; 2015.5]%float)
      as (out' & Hout' & _ & _ & Hall); [by repeat constructor|simpl; lia|].
    rewrite Hout'. f_equal. apply Hall. intros tt Htt.
    repeat (apply elem_of_cons in Htt as [->|Htt]; [reflexivity|]).
    by apply elem_of_nil in Htt.
Defined.

(** ** Cells 37 and 39: the change in firn air content *)

(** X19: the plotted change [mean_fac - mean_fac[0]] fails with
    [IndexError] on an empty series; otherwise it has the length of the
    series, starts at zero when the first regional mean is finite, and is
    missing throughout when the first regional mean is missing. *)
Theorem mean_fac_change_from_first (mean_fac : list float) :
  (mean_fac = [] → mean_fac_change mean_fac = Raise IndexError)
  ∧ ∀ first, mean_fac !! 0 = Some first →
      ∃ out, mean_fac_change mean_fac = Ok out
        ∧ length out = length mean_fac
        ∧ (is_finite first = true → out !! 0 = Some 0%float)
        ∧ (first = nan → Forall (fun v => v = nan) out).
Proof.
  split; [by intros ->|].
  intros first H0. unfold mean_fac_change. rewrite H0.
  eexists. split; [done|]. split; [apply length_map|]. split.
  - intros Hfin. rewrite list_lookup_fmap, H0. simpl.
    by rewrite sub_diag_finite.
  - intros ->. apply Forall_fmap, Forall_forall. intros v _. simpl.
    apply sub_nan_r.
Qed.

Lemma mean_fac_change_from_first_witness :
  mean_fac_change [] = Raise IndexError
  ∧ mean_fac_change [7.5; 8; nan]%float = Ok [0; 0.5; nan]%float
  ∧ ∃ out, mean_fac_change [nan; 8; 9]%float = Ok out
      ∧ Forall (fun v => v = nan) out.
Proof.
  split; [by apply (proj1 (mean_fac_change_from_first []))|].
  split; [reflexivity|].
  destruct (proj2 (mean_fac_change_from_first [nan; 8; 9]%float) nan eq_refl)
    as (out & Hout & _ & _ & Hnan).
  exists out. split; [exact Hout|]. by apply Hnan.
Defined.

(** ** Cell 31: what the interpolation changes in a record *)

Section InterpolationFrame.
Variable griddata :
  list (float * float) → list float → list (float * float)
  → result (list float).

(** X20: the interpolation step of cell 31 replaces the [FAC_interp] field
    of a record by what the interpolator returned for the source points of
    the Byrd box and the record's own [(x, y)] pairs, and changes no other
    field; the heights above mean sea level of the record are the same
    before and after. *)
Theorem FAC_interp_frame (g : fac_grid) (Di Di' : gmap string ndarray) :
  FAC_interp griddata g Di = Ok Di' →
  (∃ xy vals q v,
     interp_sources g = Ok (xy, vals) ∧ xy_data Di = Ok q
     ∧ griddata xy vals q = Ok v ∧ Di' !! "FAC_interp" = Some (F64 v))
  ∧ (∀ k, k ≠ "FAC_interp" → Di' !! k = Di !! k)
  ∧ ∀ c, h_MSL c Di' = h_MSL c Di.
Proof.
  unfold FAC_interp.
  destruct (interp_sources g) as [[xy vals]|] eqn:Hs; simpl; [|done].
  destruct (xy_data Di) as [q|] eqn:Hq; simpl; [|done].
  destruct (griddata xy vals q) as [v|] eqn:Hv; simpl; [|done].
  intros [= <-]. split; [|split].
  - exists xy, vals, q, v. by rewrite lookup_insert_eq.
  - intros k Hk. by rewrite lookup_insert_ne.
  - intros c. unfold h_MSL, getitem. by rewrite !lookup_insert_ne.
Qed.

End InterpolationFrame.

Lemma FAC_interp_frame_witness :
  ∃ Di', FAC_interp (fun _ vals q => Ok (map (fun _ => 12.5%float) q))
           grid_with_gap
           (<["x" := F64 [1; 2; 3]%float]>
              (<["y" := F64 [4; 5; 6]%float]> sample_record)) = Ok Di'
    ∧ Di' !! "FAC_interp" = Some (F64 [12.5; 12.5; 12.5]%float)
    ∧ Di' !! "h_li" = Some (F64 [98.5; nan; 50]%float).
Proof.
  evaluate (FAC_interp (fun _ vals q => Ok (map (fun _ => 12.5%float) q))
              grid_with_gap
              (<["x" := F64 [1; 2; 3]%float]>
                 (<["y" := F64 [4; 5; 6]%float]> sample_record))) as H.
  destruct (FAC_interp_frame _ _ _ _ H) as ((xy & vals & q & v & _ & Hq & Hv & Hf)
                                           & Hother & _).
  eexists. split; [exact H|]. split.
  - rewrite Hf. vm_compute in Hq. injection Hq as <-.
    simpl in Hv. by injection Hv as <-.
  - rewrite Hother by done. vm_compute. reflexivity.
Defined.
